(** * Add-on validation and synchronisation (src/addon/validation.cpp)

    A shallow embedding of the binary escaping codec, the filename
    validator, the case-insensitive duplicate detector, the hash list
    builder and the recursive tree difference of [validation.cpp], followed
    by the properties established about them. *)

From Stdlib Require Import ZArith NArith Ascii.
From Stdlib Require Import Strings.Byte.
From stdpp Require Import gmap strings list fin_maps.

Local Open Scope nat_scope.

(* ===================================================================== *)
(** ** Binary codec: [needs_escaping], [encode_binary], [unencode_binary] *)
(* ===================================================================== *)

Module Codec.

(** A [char] is one byte.  [char + k] and [char - k] are computed in [int]
    and converted back to [char], i.e. taken modulo 256. *)
Definition char_of_N (n : N) : byte :=
  match Byte.of_N (n mod 256) with
  | Some b => b
  | None => x00
  end.

Definition char_add (c : byte) (k : N) : byte :=
  char_of_N (Byte.to_N c + k).

Definition char_sub (c : byte) (k : N) : byte :=
  char_of_N (Byte.to_N c + 256 - k mod 256).

(** [const char escape_char = '\x01'] *)
Definition escape_char : byte := x01.

(** [bool needs_escaping(char c)]: the four cases of the switch. *)
Definition needs_escaping (c : byte) : bool :=
  match c with
  | x00 => true
  | x01 => true   (* escape_char *)
  | x0d => true   (* carriage return *)
  | xfe => true   (* parser code *)
  | _ => false
  end.

(** One iteration of the loop of [encode_binary]; the state is the buffer
    [res] and the write index [n]. *)
Definition encode_step (st : list byte * nat) (c : byte) : list byte * nat :=
  let '(res, n) := st in
  if needs_escaping c then
    let res := resize (length res + 1) x00 res in
    let res := <[n := escape_char]> res in
    let res := <[S n := char_add c 1]> res in
    (res, S (S n))
  else
    (<[n := c]> res, S n).

(** [std::string encode_binary(const std::string& str)] *)
Definition encode_binary (str : list byte) : list byte :=
  let res := resize (length str) x00 [] in
  fst (fold_left encode_step str (res, 0)).

(** The loop of [unencode_binary]: [j] is the unread rest of the input. *)
Fixpoint unencode_loop (j : list byte) (res : list byte) (n : nat)
  : list byte * nat :=
  match j with
  | [] => (res, n)
  | c :: j1 =>
    if Byte.eqb c escape_char then
      match j1 with
      | c2 :: j2 => unencode_loop j2 (<[n := char_sub c2 1]> res) (S n)
      | [] => (<[n := c]> res, S n)
      end
    else unencode_loop j1 (<[n := c]> res) (S n)
  end.

(** [std::string unencode_binary(const std::string& str)] *)
Definition unencode_binary (str : list byte) : list byte :=
  let res := replicate (length str) x00 in
  let '(res, n) := unencode_loop str res 0 in
  resize n x00 res.

(** *** Reference semantics of the codec, as the wire format describes it *)

(** What one input byte becomes on the wire. *)
Definition escaped (c : byte) : list byte :=
  if needs_escaping c then [escape_char; char_add c 1] else [c].

Definition encode_ref (str : list byte) : list byte :=
  flat_map escaped str.

Fixpoint decode_ref (str : list byte) : list byte :=
  match str with
  | [] => []
  | c :: j1 =>
    if Byte.eqb c escape_char then
      match j1 with
      | c2 :: j2 => char_sub c2 1 :: decode_ref j2
      | [] => [c]
      end
    else c :: decode_ref j1
  end.

(** The shape of a well-formed encoding: a sequence of tokens, each either
    one byte that needs no escaping or the marker followed by the successor
    of a byte that does. *)
Inductive escaped_stream : list byte -> Prop :=
| es_nil : escaped_stream []
| es_plain c rest :
    needs_escaping c = false -> escaped_stream rest ->
    escaped_stream (c :: rest)
| es_pair c rest :
    needs_escaping c = true -> escaped_stream rest ->
    escaped_stream (escape_char :: char_add c 1 :: rest).

(** An input of [unencode_binary] that splits into whole tokens: a byte
    other than the marker, or the marker with the byte it consumes. *)
Inductive whole_tokens : list byte -> Prop :=
| wt_nil : whole_tokens []
| wt_plain c rest :
    c <> escape_char -> whole_tokens rest -> whole_tokens (c :: rest)
| wt_pair b rest :
    whole_tokens rest -> whole_tokens (escape_char :: b :: rest).

(** *** Markers

    The marker is the byte that [encode_binary] writes in front of an
    escaped byte ([res[n++] = escape_char]) and that [unencode_binary]
    recognises at the head of its loop ([c == escape_char]); the byte that
    follows it is a payload, whatever its value. *)

(** The loop of [encode_binary] with, instead of the buffer, the list of
    the indices [n] at which it writes the marker. *)
Definition marker_step (st : list nat * nat) (c : byte) : list nat * nat :=
  let '(ms, n) := st in
  if needs_escaping c then (ms ++ [n], S (S n)) else (ms, S n).

Definition written_markers (str : list byte) : list nat :=
  fst (fold_left marker_step str ([], 0)).

(** The loop of [unencode_binary] with, instead of the buffer, the list of
    the positions at which it reads [escape_char] at the head of an
    iteration; [pos] is the position of the iterator [j]. *)
Fixpoint read_markers_from (j : list byte) (pos : nat) : list nat :=
  match j with
  | [] => []
  | c :: j1 =>
    if Byte.eqb c escape_char then
      pos :: match j1 with
             | _ :: j2 => read_markers_from j2 (S (S pos))
             | [] => []
             end
    else read_markers_from j1 (S pos)
  end.

Definition read_markers (str : list byte) : list nat :=
  read_markers_from str 0.

End Codec.

(* ===================================================================== *)
(** ** File names: [addon_filename_legal]                                 *)
(* ===================================================================== *)

Module Names.

Local Open Scope Z_scope.

(** *** The [std::string] operations the validator uses *)

(** The byte values of a string. *)
Definition byte_codes (s : string) : list Z :=
  map (fun a => Z.of_N (N_of_ascii a)) (String.list_ascii_of_string s).

(** Whether every byte of the string is below 0x80. *)
Definition is_ascii (s : string) : bool :=
  forallb (fun b => b <? 0x80) (byte_codes s).

(** [s.back()] on a non-empty string; [None] on the empty one. *)
Fixpoint back (s : string) : option ascii :=
  match s with
  | EmptyString => None
  | String a EmptyString => Some a
  | String _ s' => back s'
  end.

(** [s.find(c)] for a character [c]: the position of its first occurrence,
    [None] for [std::string::npos]. *)
Fixpoint find_char (c : ascii) (s : string) : option nat :=
  match s with
  | EmptyString => None
  | String a s' => if Ascii.eqb a c then Some 0%nat else S <$> find_char c s'
  end.

(** [s.find(needle)] for a string [needle]. *)
Fixpoint find (needle s : string) {struct s} : option nat :=
  if String.prefix needle s then Some 0%nat
  else match s with
       | EmptyString => None
       | String _ s' => S <$> find needle s'
       end.

(** [s.substr(0, pos)], where [pos] may be [npos]. *)
Definition substr0 (s : string) (pos : option nat) : string :=
  match pos with
  | Some p => String.substring 0 p s
  | None => s
  end.

(** [std::toupper] and [std::tolower] in the classic (C) locale: only the
    26 ASCII letters change. *)
Definition ascii_to_upper (c : ascii) : ascii :=
  let n := nat_of_ascii c in
  if ((97 <=? n) && (n <=? 122))%nat then ascii_of_nat (n - 32) else c.

Definition ascii_to_lower (c : ascii) : ascii :=
  let n := nat_of_ascii c in
  if ((65 <=? n) && (n <=? 90))%nat then ascii_of_nat (n + 32) else c.

Fixpoint string_map (f : ascii -> ascii) (s : string) : string :=
  match s with
  | EmptyString => EmptyString
  | String a s' => String (f a) (string_map f s')
  end.

(** [boost::algorithm::to_upper_copy(s, std::locale::classic())] *)
Definition to_upper_copy (s : string) : string := string_map ascii_to_upper s.

(** [boost::algorithm::to_lower_copy(s, std::locale::classic())] *)
Definition to_lower_copy (s : string) : string := string_map ascii_to_lower s.

(** *** Reserved names and forbidden code points *)

(** [const std::set<std::string> dos_device_names] *)
Definition dos_device_names : gset string :=
  list_to_set
    [ "NUL"; "CON"; "AUX"; "PRN";
      "CONIN$"; "CONOUT$";
      "COM1"; "COM2"; "COM3"; "COM4"; "COM5"; "COM6"; "COM7"; "COM8"; "COM9";
      "LPT1"; "LPT2"; "LPT3"; "LPT4"; "LPT5"; "LPT6"; "LPT7"; "LPT8"; "LPT9" ].

(** [addon_filename_ucs4char_illegal::operator()(char32_t c)] *)
Definition addon_filename_ucs4char_illegal (c : Z) : bool :=
  match c with
  | 32    (* space *)
  | 34    (* double quote *)
  | 42    (* asterisk *)
  | 47    (* slash *)
  | 58    (* colon *)
  | 60    (* less-than *)
  | 62    (* greater-than *)
  | 63    (* question mark *)
  | 92    (* backslash *)
  | 124   (* vertical bar *)
  | 126   (* tilde *)
  | 0x7F  (* DEL *) => true
  | _ =>
    (c <? 0x20)                              (* C0 control characters *)
    || ((0x80 <=? c) && (c <? 0xA0))         (* C1 control characters *)
    || ((0xD800 <=? c) && (c <? 0xE000))     (* surrogate pairs *)
  end.

Section Legal.

(** The two conversions [unicode_cast<std::u32string>(std::string)] and
    [unicode_cast<std::string>(std::u32string)] come from
    serialization/unicode_cast.hpp; the validator is defined over any pair
    of them. *)
Variable utf8_to_ucs4 : string -> list Z.
Variable ucs4_to_utf8 : list Z -> string.

(** [bool addon_filename_legal(const std::string& name)] *)
Definition addon_filename_legal (name : string) : bool :=
  if bool_decide (name = EmptyString)
     || bool_decide (back name = Some "."%char)
     || bool_decide (find ".." name <> None)
     || (255 <? String.length name)%nat
  then false
  else
    let stem := to_upper_copy (substr0 name (find_char "." name)) in
    if bool_decide (stem ∈ dos_device_names) then false
    else
      let name_ucs4 := utf8_to_ucs4 name in
      let name_utf8 := ucs4_to_utf8 name_ucs4 in
      if bool_decide (name <> name_utf8) then false
      else
        match List.find addon_filename_ucs4char_illegal name_ucs4 with
        | None => true
        | Some _ => false
        end.

End Legal.

(** *** A UTF-8 conversion to instantiate the validator with *)

(** Modelled from the spec: [unicode_cast] (serialization/unicode_cast.hpp)
    is not among the sources.  The specification says the name is decoded
    as UTF-8 into code points and re-encoded; decoding stops at the first
    byte sequence that is not UTF-8, so that such a name is not reproduced
    by re-encoding, and an overlong form decodes to a code point whose
    encoding is shorter. *)
Definition is_continuation (b : Z) : bool := (0x80 <=? b) && (b <? 0xC0).

Fixpoint utf8_decode (bs : list Z) : list Z :=
  match bs with
  | [] => []
  | b0 :: r0 =>
    if b0 <? 0x80 then b0 :: utf8_decode r0
    else if b0 <? 0xC0 then []
    else if b0 <? 0xE0 then
      match r0 with
      | b1 :: r1 =>
        if is_continuation b1
        then ((b0 - 0xC0) * 64 + (b1 - 0x80)) :: utf8_decode r1
        else []
      | _ => []
      end
    else if b0 <? 0xF0 then
      match r0 with
      | b1 :: b2 :: r2 =>
        if is_continuation b1 && is_continuation b2
        then ((b0 - 0xE0) * 4096 + (b1 - 0x80) * 64 + (b2 - 0x80))
               :: utf8_decode r2
        else []
      | _ => []
      end
    else if b0 <? 0xF8 then
      match r0 with
      | b1 :: b2 :: b3 :: r3 =>
        if is_continuation b1 && is_continuation b2 && is_continuation b3
        then ((b0 - 0xF0) * 262144 + (b1 - 0x80) * 4096
              + (b2 - 0x80) * 64 + (b3 - 0x80)) :: utf8_decode r3
        else []
      | _ => []
      end
    else []
  end.

Definition utf8_encode_char (c : Z) : list Z :=
  if c <? 0x80 then [c]
  else if c <? 0x800 then [0xC0 + c / 64; 0x80 + c mod 64]
  else if c <? 0x10000 then
    [0xE0 + c / 4096; 0x80 + (c / 64) mod 64; 0x80 + c mod 64]
  else
    [0xF0 + c / 262144; 0x80 + (c / 4096) mod 64;
     0x80 + (c / 64) mod 64; 0x80 + c mod 64].

Definition string_of_codes (l : list Z) : string :=
  String.string_of_list_ascii (map (fun z => ascii_of_N (Z.to_N z)) l).

Definition utf8_to_ucs4_model (s : string) : list Z :=
  utf8_decode (byte_codes s).

Definition ucs4_to_utf8_model (l : list Z) : string :=
  string_of_codes (flat_map utf8_encode_char l).

(** The string made of [n] copies of [c]. *)
Fixpoint repeat_char (c : ascii) (n : nat) : string :=
  match n with
  | O => EmptyString
  | S n' => String c (repeat_char c n')
  end.

(* ===================================================================== *)
(** ** Add-on names and add-on types                                      *)
(* ===================================================================== *)

Section AddonName.

(** [isalnum] of <cctype>; what it accepts depends on the C locale in
    force, so the validator is defined over any such test. *)
Variable isalnum : ascii -> bool.

(** [addon_name_char_illegal::operator()(char c)] *)
Definition addon_name_char_illegal (c : ascii) : bool :=
  match c with
  | "-"%char      (* hyphen-minus *)
  | "_"%char      (* low line *) => false
  | _ => negb (isalnum c)
  end.

(** [bool addon_name_legal(const std::string& name)] *)
Definition addon_name_legal (name : string) : bool :=
  if bool_decide (name = EmptyString)
     || bool_decide (List.find addon_name_char_illegal
                       (String.list_ascii_of_string name) <> None)
  then false
  else true.

End AddonName.

(** [isalnum] in the C locale: the ASCII digits and letters. *)
Definition isalnum_c (c : ascii) : bool :=
  let n := nat_of_ascii c in
  (((48 <=? n) && (n <=? 57)) || ((65 <=? n) && (n <=? 90))
   || ((97 <=? n) && (n <=? 122)))%nat.

Section AddonTypes.

(** [ADDON_TYPES_COUNT] and [ADDON_UNKNOWN], enumerators of [ADDON_TYPE]
    (addon/validation.hpp); an [ADDON_TYPE] is its number. *)
Variable ADDON_TYPES_COUNT : nat.
Variable ADDON_UNKNOWN : nat.

(** The initialisers of [addon_type_strings]. *)
Definition addon_type_names : list string :=
  [ "unknown"; "core"; "campaign"; "scenario"; "campaign_sp_mp";
    "campaign_mp"; "scenario_mp"; "map_pack"; "era"; "faction"; "mod_mp";
    (* gui *) "media"; "other" ].

(** [const std::array<std::string, ADDON_TYPES_COUNT> addon_type_strings]:
    elements past the initialisers are empty strings. *)
Definition addon_type_strings : list string :=
  resize ADDON_TYPES_COUNT EmptyString addon_type_names.

(** The loop of [get_addon_type]: [while (++addon_type_num !=
    ADDON_TYPES_COUNT) { if (str == addon_type_strings[addon_type_num])
    return ADDON_TYPE(addon_type_num); } return ADDON_UNKNOWN;].  [None]
    when [fuel] iterations were not enough, or the index left the array. *)
Fixpoint get_addon_type_loop (str : string) (fuel addon_type_num : nat)
  : option nat :=
  match fuel with
  | O => None
  | S fuel' =>
    let addon_type_num := S addon_type_num in
    if (addon_type_num =? ADDON_TYPES_COUNT)%nat then Some ADDON_UNKNOWN
    else
      match addon_type_strings !! addon_type_num with
      | None => None
      | Some s =>
        if bool_decide (str = s) then Some addon_type_num
        else get_addon_type_loop str fuel' addon_type_num
      end
  end.

(** [ADDON_TYPE get_addon_type(const std::string& str)] *)
Definition get_addon_type (str : string) : option nat :=
  if bool_decide (str = EmptyString) then Some ADDON_UNKNOWN
  else get_addon_type_loop str ADDON_TYPES_COUNT 0.

(** [std::string get_addon_type_string(ADDON_TYPE type)]; [None] when the
    assertion [type != ADDON_TYPES_COUNT] fails or [type] is no index of
    the array. *)
Definition get_addon_type_string (type : nat) : option string :=
  if (type =? ADDON_TYPES_COUNT)%nat then None
  else addon_type_strings !! type.

End AddonTypes.

End Names.

(* ===================================================================== *)
(** ** Directory trees: the container                                     *)
(* ===================================================================== *)

Module Tree.

Import Names.

(** Modelled from the spec: the attribute tree [config] (config.hpp) is not
    among the sources.  The specification asks of it no more than: get a
    string-valued attribute by name, enumerate the children of one tag in
    insertion order, add a child under a tag, and find the first child of a
    tag with a given attribute value.  An attribute that is absent reads as
    the empty string. *)
Local Unset Elimination Schemes.
Inductive config : Type :=
  Config { values : gmap string string; children : list (string * config) }.
Local Set Elimination Schemes.

(** Structural induction over a tree: the property may be assumed of every
    child. *)
Fixpoint config_ind (P : config -> Prop)
    (step : forall vs cs, Forall (fun p => P p.2) cs -> P (Config vs cs))
    (cfg : config) : P cfg :=
  match cfg with
  | Config vs cs =>
    step vs cs
      ((fix all (l : list (string * config)) : Forall (fun p => P p.2) l :=
          match l with
          | [] => @List.Forall_nil _ (fun p => P p.2)
          | p :: l' =>
            @List.Forall_cons _ (fun p => P p.2) p l'
              (config_ind P step p.2) (all l')
          end) cs)
  end.

(** [config()] *)
Definition empty_config : config := Config ∅ [].

(** [config(key, value)] *)
Definition config_kv (key value : string) : config := Config {[ key := value ]} [].

(** [cfg[key]], read as a string. *)
Definition attr (cfg : config) (key : string) : string :=
  default "" (values cfg !! key).

(** [cfg[key] = value] *)
Definition set_attr (cfg : config) (key value : string) : config :=
  Config (<[ key := value ]> (values cfg)) (children cfg).

(** [cfg.child_range(tag)] *)
Definition child_range (tag : string) (cfg : config) : list config :=
  omap (fun p : string * config =>
          if bool_decide (p.1 = tag) then Some p.2 else None) (children cfg).

(** [cfg.add_child(tag, child)] *)
Definition add_child (cfg : config) (tag : string) (child : config) : config :=
  Config (values cfg) (children cfg ++ [(tag, child)]).

(** [cfg.find_child(tag, name, value)]; [None] is the invalid config that
    converts to [false]. *)
Definition find_child (cfg : config) (tag name value : string) : option config :=
  List.find (fun c => bool_decide (attr c name = value)) (child_range tag cfg).

(** [for (const config& c : cfg.child_range(tag)) st = body(c, st);] run
    over the children of [cfg]. *)
Definition for_each_child {S : Type} (tag : string) (body : config -> S -> S)
  : list (string * config) -> S -> S :=
  fix go cs st :=
    match cs with
    | [] => st
    | (t, c) :: cs' =>
      if bool_decide (t = tag) then go cs' (body c st) else go cs' st
    end.

(** The same loop with a body that may [return]: [inr r] leaves the
    function with result [r]. *)
Definition for_each_child_until {S R : Type} (tag : string)
    (body : config -> S -> S + R) : list (string * config) -> S -> S + R :=
  fix go cs st :=
    match cs with
    | [] => inl st
    | (t, c) :: cs' =>
      if bool_decide (t = tag) then
        match body c st with
        | inl st' => go cs' st'
        | inr r => inr r
        end
      else go cs' st
    end.

(** A loop over a list whose body may [return]. *)
Fixpoint fold_until {A S R : Type} (body : A -> S -> S + R)
    (l : list A) (st : S) : S + R :=
  match l with
  | [] => inl st
  | c :: l' =>
    match body c st with
    | inl st' => fold_until body l' st'
    | inr r => inr r
    end
  end.

(** No two subdirectories of one directory share a name, at any depth. *)
Fixpoint dir_names_distinct (cfg : config) : bool :=
  bool_decide (NoDup ((fun d => attr d "name") <$> child_range "dir" cfg))
  && for_each_child "dir" (fun d ok => ok && dir_names_distinct d)
       (children cfg) true.

(** The subdirectory of [from] that [d] is compared with: the first one of
    the same name, or an empty directory of that name. *)
Definition origin_dir (from d : config) : config :=
  default (config_kv "name" (attr d "name"))
          (find_child from "dir" "name" (attr d "name")).

(* ===================================================================== *)
(** ** Case-insensitive duplicates                                        *)
(* ===================================================================== *)

(** The block both loops of [check_case_insensitive_duplicates_internal]
    run on a child's name: [emplace] into [filenames], and on a collision
    either report it or, without a [badlist], give up ([None]). *)
Definition record_name (prefix filename : string)
    (filenames : gmap string (bool * string)) (badlist : option (list string))
  : option (gmap string (bool * string) * option (list string)) :=
  let lowercase := to_lower_copy filename in
  let with_prefix := prefix +:+ filename in
  match filenames !! lowercase with
  | None => Some (<[ lowercase := (false, with_prefix) ]> filenames, badlist)
  | Some (printed, original) =>
    match badlist with
    | Some bl =>
      if negb printed then
        let bl := bl ++ [original] in
        let filenames := <[ lowercase := (true, "") ]> filenames in
        Some (filenames, Some (bl ++ [with_prefix]))
      else Some (filenames, Some (bl ++ [with_prefix]))
    | None => None
    end
  end.

(** [return badlist ? badlist->empty() : true;] *)
Definition badlist_verdict (badlist : option (list string)) : bool :=
  match badlist with
  | Some bl => bool_decide (bl = [])
  | None => true
  end.

(** [bool check_case_insensitive_duplicates_internal(const config& dir,
    const std::string& prefix, std::vector<std::string>* badlist)]; the
    vector behind the pointer is returned with the result. *)
Fixpoint check_case_insensitive_duplicates_internal
    (dir : config) (prefix : string) (badlist : option (list string))
    {struct dir} : bool * option (list string) :=
  match
    for_each_child_until "file"
      (fun path '(filenames, badlist) =>
         match record_name prefix (attr path "name") filenames badlist with
         | Some st => inl st
         | None => inr (false, badlist)
         end)
      (children dir) (∅, badlist)
  with
  | inr r => r
  | inl st =>
    match
      for_each_child_until "dir"
        (fun path '(filenames, badlist) =>
           let filename := attr path "name" in
           match record_name prefix filename filenames badlist with
           | None => inr (false, badlist)
           | Some (filenames, badlist) =>
             let '(ok, badlist) :=
               check_case_insensitive_duplicates_internal
                 path (prefix +:+ filename +:+ "/") badlist in
             if negb ok && negb (bool_decide (is_Some badlist))
             then inr (false, badlist)
             else inl (filenames, badlist)
           end)
        (children dir) st
    with
    | inr r => r
    | inl (_, badlist) => (badlist_verdict badlist, badlist)
    end
  end.

(** [bool check_case_insensitive_duplicates(const config& dir,
    std::vector<std::string>* badlist)] *)
Definition check_case_insensitive_duplicates
    (dir : config) (badlist : option (list string))
  : bool * option (list string) :=
  check_case_insensitive_duplicates_internal dir "" badlist.

(** *** What the duplicate check is to report *)

(** What one name adds to the report, given the names met before it in the
    same directory: nothing when none of them has its lower-cased form, the
    earlier name and this one when exactly one has, and this one alone when
    several have. *)
Definition collision_report (prefix : string) (earlier : list string)
    (name : string) : list string :=
  match filter (fun n => to_lower_copy n = to_lower_copy name) earlier with
  | [] => []
  | [original] => [prefix +:+ original; prefix +:+ name]
  | _ :: _ :: _ => [prefix +:+ name]
  end.

(** The report for a run of names of one directory. *)
Fixpoint level_report (prefix : string) (earlier names : list string)
  : list string :=
  match names with
  | [] => []
  | name :: names' =>
    collision_report prefix earlier name
    ++ level_report prefix (earlier ++ [name]) names'
  end.

(** The report for a tree: the files of the directory, then each
    subdirectory followed by the report of its own tree. *)
Fixpoint duplicate_report (dir : config) (prefix : string) {struct dir}
  : list string :=
  let file_names := (fun c => attr c "name") <$> child_range "file" dir in
  snd (for_each_child "dir"
         (fun path '(earlier, out) =>
            let name := attr path "name" in
            (earlier ++ [name],
             out ++ collision_report prefix earlier name
                 ++ duplicate_report path (prefix +:+ name +:+ "/")))
         (children dir) (file_names, level_report prefix [] file_names)).

(** The table [filenames] after the names [earlier] of a directory. *)
Definition seen_as (prefix : string) (earlier : list string)
    (filenames : gmap string (bool * string)) : Prop :=
  forall key,
    filenames !! key
    = match filter (fun n => to_lower_copy n = key) earlier with
      | [] => None
      | [original] => Some (false, prefix +:+ original)
      | _ :: _ :: _ => Some (true, "")
      end.

(* ===================================================================== *)
(** ** Hashes, hash lists, containment and difference                     *)
(* ===================================================================== *)

Section Hashing.

(** [utils::md5(s).base64_digest()], from hash.hpp: the digest of a file's
    contents, as a string.  Everything below is defined over any such
    function. *)
Variable md5_base64_digest : string -> string.

(** [static std::string file_hash_raw(const config& file)] *)
Definition file_hash_raw (file : config) : string :=
  md5_base64_digest (attr file "contents").

(** [std::string file_hash(const config& file)] *)
Definition file_hash (file : config) : string :=
  let hash := attr file "hash" in
  if bool_decide (hash = "") then file_hash_raw file else hash.

(** [bool comp_file_hash(const config& file_a, const config& file_b)] *)
Definition comp_file_hash (file_a file_b : config) : bool :=
  bool_decide (attr file_a "name" = attr file_b "name")
  && bool_decide (file_hash file_a = file_hash file_b).

(** Two files are the same when their names and their hashes agree. *)
Definition same_file (f d : config) : Prop :=
  attr f "name" = attr d "name" /\ file_hash f = file_hash d.

#[local] Instance same_file_dec f d : Decision (same_file f d).
Proof. unfold same_file. apply _. Defined.

(** The inner loop of [contains_hashlist] and [write_difference]:
    [for (d : from.child_range("file")) { found |= comp_file_hash(f, d);
    if (found) break; }] *)
Fixpoint scan_files (f : config) (ds : list config) (found : bool) : bool :=
  match ds with
  | [] => found
  | d :: ds' =>
    let found := found || comp_file_hash f d in
    if found then found else scan_files f ds' found
  end.

(** [void write_hashlist(config& hashlist, const config& data)] *)
Fixpoint write_hashlist (hashlist data : config) {struct data} : config :=
  let hashlist := set_attr hashlist "name" (attr data "name") in
  let hashlist :=
    for_each_child "file"
      (fun f hashlist =>
         let file := empty_config in
         let file := set_attr file "name" (attr f "name") in
         let file := set_attr file "hash" (file_hash_raw f) in
         add_child hashlist "file" file)
      (children data) hashlist in
  for_each_child "dir"
    (fun d hashlist =>
       let dir := write_hashlist empty_config d in
       add_child hashlist "dir" dir)
    (children data) hashlist.

(** [bool contains_hashlist(const config& from, const config& to)] *)
Fixpoint contains_hashlist (from to : config) {struct to} : bool :=
  match
    for_each_child_until "file"
      (fun f (_ : unit) =>
         let found := scan_files f (child_range "file" from) false in
         if negb found then inr false else inl tt)
      (children to) tt
  with
  | inr r => r
  | inl _ =>
    match
      for_each_child_until "dir"
        (fun d (_ : unit) =>
           match find_child from "dir" "name" (attr d "name") with
           | Some origin_dir =>
             if negb (contains_hashlist origin_dir d) then inr false
             else inl tt
           | None =>
             (* The case of empty new subdirectories *)
             let dummy_dir := config_kv "name" (attr d "name") in
             if negb (contains_hashlist dummy_dir d) then inr false
             else inl tt
           end)
        (children to) tt
    with
    | inr r => r
    | inl _ => true
    end
  end.

(** [static bool write_difference(config& pack, const config& from,
    const config& to, bool with_content)]; the pack behind the reference is
    returned with the result. *)
Fixpoint write_difference (pack from to : config) (with_content : bool)
    {struct to} : config * bool :=
  let pack := set_attr pack "name" (attr to "name") in
  let has_changes := false in
  let st :=
    for_each_child "file"
      (fun f '(pack, has_changes) =>
         let found := scan_files f (child_range "file" from) false in
         if negb found then
           let file := empty_config in
           let file := set_attr file "name" (attr f "name") in
           let file :=
             if with_content then
               let file := set_attr file "contents" (attr f "contents") in
               set_attr file "hash" (file_hash f)
             else file in
           (add_child pack "file" file, true)
         else (pack, has_changes))
      (children to) (pack, has_changes) in
  for_each_child "dir"
    (fun d '(pack, has_changes) =>
       let dir := empty_config in
       match find_child from "dir" "name" (attr d "name") with
       | Some origin_dir =>
         let '(dir, changed) := write_difference dir origin_dir d with_content in
         if changed then (add_child pack "dir" dir, true)
         else (pack, has_changes)
       | None =>
         let dummy_dir := config_kv "name" (attr d "name") in
         let '(dir, changed) := write_difference dir dummy_dir d with_content in
         if changed then (add_child pack "dir" dir, true)
         else (pack, has_changes)
       end)
    (children to) st.

(** What [write_difference] writes for a file it adds: its name, and with
    [with_content] its contents and hash as well. *)
Definition diff_file (with_content : bool) (f : config) : config :=
  Config
    (if with_content then
       <[ "hash" := file_hash f ]>
         (<[ "contents" := attr f "contents" ]> {[ "name" := attr f "name" ]})
     else {[ "name" := attr f "name" ]})
    [].

(** What [write_hashlist] writes for a file: its name and the digest of
    its contents. *)
Definition hash_entry (f : config) : config :=
  Config (<[ "hash" := md5_base64_digest (attr f "contents") ]>
            {[ "name" := attr f "name" ]}) [].

(** [void make_updatepack(config& pack, const config& from,
    const config& to)]: each list is added to [pack] as an empty child and
    then filled in place. *)
Definition make_updatepack (pack from to : config) : config :=
  let removelist := fst (write_difference empty_config to from false) in
  let pack := add_child pack "removelist" removelist in
  let addlist := fst (write_difference empty_config from to true) in
  add_child pack "addlist" addlist.

End Hashing.

#[export] Existing Instance same_file_dec.

(** The subdirectory reached from [cfg] by taking, at each step, the
    subdirectory of that index. *)
Fixpoint subdir_at (path : list nat) (cfg : config) : option config :=
  match path with
  | [] => Some cfg
  | i :: path' =>
    match child_range "dir" cfg !! i with
    | Some d => subdir_at path' d
    | None => None
    end
  end.

(** A stand-in for the digest, to run the functions on examples. *)
Definition sample_digest (contents : string) : string := "md5:" +:+ contents.

(** A directory with two subdirectories of the same name, the first one
    empty and the second one with a file. *)
Definition twin_dirs : config :=
  Config {[ "name" := "root" ]}
    [ ("dir", Config {[ "name" := "x" ]} []);
      ("dir", Config {[ "name" := "x" ]} [("file", config_kv "name" "b")]) ].

(** A directory with two files of the same name, and two subdirectories
    of different names. *)
Definition twin_files : config :=
  Config {[ "name" := "root" ]}
    [ ("file", Config (<[ "contents" := "1" ]> {[ "name" := "a" ]}) []);
      ("file", Config (<[ "contents" := "2" ]> {[ "name" := "a" ]}) []);
      ("dir", Config {[ "name" := "x" ]} [("file", config_kv "name" "a")]);
      ("dir", Config {[ "name" := "y" ]} [("file", config_kv "name" "b")]) ].

(** A directory with two files of equal contents and different cached
    hashes. *)
Definition cached_twins : config :=
  Config {[ "name" := "root" ]}
    [ ("file", Config (<[ "hash" := "p" ]> (<[ "contents" := "x" ]>
                         {[ "name" := "a" ]})) []);
      ("file", Config (<[ "hash" := "q" ]> (<[ "contents" := "x" ]>
                         {[ "name" := "b" ]})) []) ].

(* ===================================================================== *)
(** ** Legal names in a tree: [check_names_legal]                         *)
(* ===================================================================== *)

Section NamesLegal.

(** The two conversions of [unicode_cast], as for [addon_filename_legal]. *)
Variable utf8_to_ucs4 : string -> list Z.
Variable ucs4_to_utf8 : list Z -> string.

(** [badlist->push_back(path)] when there is a list, [return false]
    ([inr]) when there is none. *)
Definition report_or_return (path : string) (badlist : option (list string))
  : option (list string) + bool * option (list string) :=
  match badlist with
  | Some bl => inl (Some (bl ++ [path]))
  | None => inr (false, badlist)
  end.

(** [bool check_names_legal_internal(const config& dir,
    std::string current_prefix, std::vector<std::string>* badlist)]; the
    vector behind the pointer is returned with the result. *)
Fixpoint check_names_legal_internal
    (dir : config) (current_prefix : string) (badlist : option (list string))
    {struct dir} : bool * option (list string) :=
  let current_prefix :=
    if negb (bool_decide (current_prefix = EmptyString))
    then current_prefix +:+ "/" else current_prefix in
  match
    for_each_child_until "file"
      (fun path badlist =>
         let filename := attr path "name" in
         if negb (addon_filename_legal utf8_to_ucs4 ucs4_to_utf8 filename)
         then report_or_return (current_prefix +:+ filename) badlist
         else inl badlist)
      (children dir) badlist
  with
  | inr r => r
  | inl badlist =>
    match
      for_each_child_until "dir"
        (fun path badlist =>
           let dirname := attr path "name" in
           let new_prefix := current_prefix +:+ dirname in
           match
             if negb (addon_filename_legal utf8_to_ucs4 ucs4_to_utf8 dirname)
             then report_or_return (new_prefix +:+ "/") badlist
             else inl badlist
           with
           | inr r => inr r
           | inl badlist =>
             (* Recurse into subdir. *)
             let '(ok, badlist) :=
               check_names_legal_internal path new_prefix badlist in
             if negb ok && negb (bool_decide (is_Some badlist))
             then inr (false, badlist)
             else inl badlist
           end)
        (children dir) badlist
    with
    | inr r => r
    | inl badlist => (badlist_verdict badlist, badlist)
    end
  end.

(** [bool check_names_legal(const config& dir,
    std::vector<std::string>* badlist)] *)
Definition check_names_legal (dir : config) (badlist : option (list string))
  : bool * option (list string) :=
  check_names_legal_internal dir "" badlist.

(** Every file and directory name of the tree, at any depth, is a legal
    file name. *)
Fixpoint names_all_legal (dir : config) : bool :=
  forallb (fun f => addon_filename_legal utf8_to_ucs4 ucs4_to_utf8
                      (attr f "name"))
          (child_range "file" dir)
  && for_each_child "dir"
       (fun d ok =>
          ok && addon_filename_legal utf8_to_ucs4 ucs4_to_utf8 (attr d "name")
             && names_all_legal d)
       (children dir) true.

(** The paths of the illegal names of a tree: the files of the directory,
    then each subdirectory (with a trailing slash) followed by the paths
    found in it. *)
Fixpoint illegal_paths (dir : config) (current_prefix : string) {struct dir}
  : list string :=
  let current_prefix :=
    if bool_decide (current_prefix = EmptyString) then current_prefix
    else current_prefix +:+ "/" in
  let bad name :=
    negb (addon_filename_legal utf8_to_ucs4 ucs4_to_utf8 name) in
  let in_files :=
    (fun f => current_prefix +:+ attr f "name")
      <$> filter (fun f => bad (attr f "name") = true)
                 (child_range "file" dir) in
  for_each_child "dir"
    (fun d out =>
       let new_prefix := current_prefix +:+ attr d "name" in
       out ++ (if bad (attr d "name") then [new_prefix +:+ "/"] else [])
           ++ illegal_paths d new_prefix)
    (children dir) in_files.

End NamesLegal.

(** No two entries of one directory, files and subdirectories together,
    have the same lower-cased name, at any depth. *)
Fixpoint lowercase_names_distinct (dir : config) : bool :=
  bool_decide
    (NoDup ((fun c => to_lower_copy (attr c "name"))
              <$> (child_range "file" dir ++ child_range "dir" dir)))
  && for_each_child "dir" (fun d ok => ok && lowercase_names_distinct d)
       (children dir) true.

(** Every directory entry below [cfg], at any depth, has a child. *)
Fixpoint no_empty_dirs (cfg : config) : bool :=
  for_each_child "dir"
    (fun d ok =>
       ok && match children d with [] => false | _ :: _ => true end
          && no_empty_dirs d)
    (children cfg) true.

(** Every file entry of [cfg], at any depth, passes the test [ok]. *)
Fixpoint all_files (ok : config -> bool) (cfg : config) : bool :=
  forallb ok (child_range "file" cfg)
  && for_each_child "dir" (fun d acc => acc && all_files ok d)
       (children cfg) true.

(** The hash a file carries, if any, is the digest of its contents. *)
Definition hash_consistent (md5 : string -> string) (f : config) : bool :=
  bool_decide (file_hash md5 f = file_hash_raw md5 f).

(** The prefix under which [check_names_legal_internal] reports the
    entries of a directory. *)
Definition with_slash (prefix : string) : string :=
  if negb (bool_decide (prefix = EmptyString)) then prefix +:+ "/"
  else prefix.

(** A file entry of a difference as [write_difference] is to write it: a
    name, and contents and a hash exactly when [with_content] is set. *)
Definition entry_shape (with_content : bool) (f : config) : bool :=
  bool_decide (is_Some (values f !! "name"))
  && Bool.eqb (bool_decide (is_Some (values f !! "contents"))) with_content
  && Bool.eqb (bool_decide (is_Some (values f !! "hash"))) with_content.

End Tree.
Module CodecFacts.
Import Codec.

Lemma char_sub_add (c : byte) : char_sub (char_add c 1) 1 = c.
Proof. destruct c; reflexivity. Qed.

Lemma encode_loop_ref (str pre : list byte) :
  fold_left encode_step str
    (pre ++ replicate (length str) x00, length pre)
  = (pre ++ encode_ref str, length (pre ++ encode_ref str)).
Proof.
  revert pre. induction str as [|c str IH]; intros pre; simpl.
  - by rewrite !app_nil_r.
  - unfold escaped. destruct (needs_escaping c) eqn:Hc.
    + replace (resize _ x00 _)
        with (pre ++ x00 :: x00 :: replicate (length str) x00).
      2:{ rewrite resize_ge by lia.
          replace (length (pre ++ x00 :: replicate (length str) x00) + 1
                   - length (pre ++ x00 :: replicate (length str) x00)) with 1
            by lia.
          rewrite <- app_assoc. simpl. f_equal. f_equal.
          change (x00 :: replicate (length str) x00)
            with (replicate (S (length str)) x00).
          by rewrite <- replicate_cons_app. }
      rewrite insert_app_r_alt by lia. rewrite Nat.sub_diag. simpl.
      replace (S (length pre)) with (length pre + 1) by lia.
      rewrite insert_app_r. simpl.
      specialize (IH (pre ++ [escape_char; char_add c 1])).
      rewrite length_app in IH. simpl in IH.
      replace (S (length pre + 1)) with (length pre + 2) by lia.
      rewrite <- !app_assoc in IH. simpl in IH. exact IH.
    + rewrite insert_app_r_alt by lia. rewrite Nat.sub_diag. simpl.
      specialize (IH (pre ++ [c])).
      rewrite length_app in IH. simpl in IH.
      replace (S (length pre)) with (length pre + 1) by lia.
      rewrite <- !app_assoc in IH. simpl in IH. exact IH.
Qed.

(** The buffer-and-index loop of [encode_binary] computes [encode_ref]. *)
Lemma encode_binary_ref (str : list byte) : encode_binary str = encode_ref str.
Proof.
  unfold encode_binary. rewrite resize_nil.
  pose proof (encode_loop_ref str []) as H. simpl in H. by rewrite H.
Qed.


Lemma unencode_loop_ref (m : nat) :
  forall (j pre pad : list byte),
    length j <= m -> length j <= length pad ->
    exists pad',
      unencode_loop j (pre ++ pad) (length pre)
      = ((pre ++ decode_ref j) ++ pad', length (pre ++ decode_ref j)).
Proof.
  induction m as [|m IH]; intros j pre pad Hm Hpad.
  - destruct j; [|simpl in Hm; lia].
    exists pad. simpl. by rewrite app_nil_r.
  - destruct j as [|c j1]; [exists pad; simpl; by rewrite app_nil_r|].
    destruct pad as [|p pad]; [simpl in Hpad; lia|].
    simpl in Hm, Hpad. simpl.
    assert (Hins : forall b : byte,
               <[length pre := b]> (pre ++ p :: pad) = (pre ++ [b]) ++ pad).
    { intros b. rewrite insert_app_r_alt by lia.
      rewrite Nat.sub_diag. simpl. by rewrite <- app_assoc. }
    assert (Hlen : S (length pre) = length (pre ++ [c]))
      by (rewrite length_app; simpl; lia).
    destruct (Byte.eqb c escape_char) eqn:Hc.
    + destruct j1 as [|c2 j2].
      * exists pad. by rewrite Hins, Hlen.
      * simpl in Hm, Hpad. rewrite Hins.
        destruct (IH j2 (pre ++ [char_sub c2 1]) pad) as [pad' Hp]; [lia..|].
        exists pad'. rewrite length_app in Hp. simpl in Hp.
        rewrite Nat.add_comm in Hp. simpl in Hp. rewrite Hp.
        by rewrite <- !app_assoc.
    + rewrite Hins.
      destruct (IH j1 (pre ++ [c]) pad) as [pad' Hp]; [lia..|].
      exists pad'. rewrite Hlen, Hp. by rewrite <- !app_assoc.
Qed.

(** The buffer-and-index loop of [unencode_binary] computes [decode_ref]. *)
Lemma unencode_binary_ref (str : list byte) :
  unencode_binary str = decode_ref str.
Proof.
  unfold unencode_binary.
  destruct (unencode_loop_ref (length str) str [] (replicate (length str) x00))
    as [pad' Hp]; [lia | by rewrite length_replicate |].
  simpl in Hp. rewrite Hp.
  rewrite resize_app_le by lia. apply resize_all.
Qed.

Lemma decode_ref_length (m : nat) :
  forall s : list byte,
    length s <= m -> length (decode_ref s) <= length s.
Proof.
  induction m as [|m IH]; intros s Hm.
  - destruct s; [done|simpl in Hm; lia].
  - destruct s as [|c [|c2 j2]]; simpl in *; [lia|..].
    + destruct (Byte.eqb c escape_char); simpl; lia.
    + destruct (Byte.eqb c escape_char); simpl.
      * specialize (IH j2). lia.
      * specialize (IH (c2 :: j2)). simpl in IH. lia.
Qed.

Lemma decode_ref_plain (c : byte) (rest : list byte) :
  c <> escape_char -> decode_ref (c :: rest) = c :: decode_ref rest.
Proof.
  intros Hc. simpl. destruct (Byte.eqb c escape_char) eqn:He; [|done].
  by apply Byte.byte_dec_bl in He.
Qed.

Lemma decode_ref_trailing_marker (p : list byte) :
  whole_tokens p ->
  decode_ref (p ++ [escape_char]) = decode_ref p ++ [escape_char].
Proof.
  induction 1 as [|c rest Hc _ IH|b rest _ IH].
  - reflexivity.
  - rewrite <- app_comm_cons, !decode_ref_plain by done. by rewrite IH.
  - simpl. by rewrite IH.
Qed.

Lemma decode_ref_escaped (c : byte) (rest : list byte) :
  decode_ref (escaped c ++ rest) = c :: decode_ref rest.
Proof.
  unfold escaped. destruct (needs_escaping c) eqn:Hc.
  - simpl. by rewrite char_sub_add.
  - destruct c; try discriminate Hc; reflexivity.
Qed.

Lemma decode_encode_ref (str rest : list byte) :
  decode_ref (encode_ref str ++ rest) = str ++ decode_ref rest.
Proof.
  induction str as [|c str IH]; [done|].
  unfold encode_ref in *. simpl. rewrite <- app_assoc.
  rewrite decode_ref_escaped. by rewrite IH.
Qed.

Lemma encode_ref_plain (str : list byte) :
  Forall (fun c => needs_escaping c = false) str -> encode_ref str = str.
Proof.
  induction 1 as [|c str Hc _ IH]; [done|].
  unfold encode_ref in *. simpl. unfold escaped at 1. rewrite Hc. simpl.
  by rewrite IH.
Qed.

Lemma needs_escaping_spec (c : byte) :
  needs_escaping c = true <-> c = x00 \/ c = x01 \/ c = x0d \/ c = xfe.
Proof.
  split.
  - destruct c; try discriminate; tauto.
  - intros [->|[->|[->| ->]]]; reflexivity.
Qed.

Lemma encode_ref_stream (str : list byte) : escaped_stream (encode_ref str).
Proof.
  induction str as [|c str IH]; [constructor|].
  unfold encode_ref in *. simpl. unfold escaped at 1.
  destruct (needs_escaping c) eqn:Hc; simpl; by constructor.
Qed.


Lemma escaped_stream_bytes (s : list byte) :
  escaped_stream s ->
  forall b, b ∈ s -> b <> x00 /\ b <> x0d /\ b <> xfe.
Proof.
  induction 1 as [|c rest Hc _ IH|c rest Hc _ IH]; intros b Hb.
  - by apply elem_of_nil in Hb.
  - apply elem_of_cons in Hb as [->|Hb]; [|by apply IH].
    destruct c; try discriminate Hc; repeat split; discriminate.
  - apply elem_of_cons in Hb as [->|Hb]; [repeat split; discriminate|].
    apply elem_of_cons in Hb as [->|Hb]; [|by apply IH].
    destruct c; try discriminate Hc; repeat split; discriminate.
Qed.

Lemma escaped_stream_marker (s : list byte) :
  escaped_stream s ->
  forall i, s !! i = Some escape_char ->
    is_Some (s !! S i) \/ exists j, i = S j /\ s !! j = Some escape_char.
Proof.
  induction 1 as [|c rest Hc _ IH|c rest Hc _ IH]; intros i Hi.
  - by rewrite lookup_nil in Hi.
  - destruct i as [|i]; simpl in Hi.
    + injection Hi as ->. discriminate Hc.
    + destruct (IH i Hi) as [Hs|(j & -> & Hj)]; [by left|].
      right. by exists (S j).
  - destruct i as [|[|i]]; simpl in Hi.
    + left. simpl. by eexists.
    + right. by exists 0.
    + destruct (IH i Hi) as [Hs|(j & -> & Hj)]; [by left|].
      right. by exists (S (S j)).
Qed.

Lemma last_escaped (c : byte) :
  last (escaped c) = Some escape_char <-> c = x00.
Proof.
  split; [|by intros ->].
  destruct c; try discriminate; reflexivity.
Qed.

Lemma encode_ref_last (str : list byte) :
  last (encode_ref str) = Some escape_char <-> last str = Some x00.
Proof.
  destruct str as [|c str _] using rev_ind; [done|].
  unfold encode_ref. rewrite flat_map_app. simpl. rewrite app_nil_r.
  rewrite last_snoc.
  assert (He : exists e es, escaped c = es ++ [e] /\
                            last (escaped c) = Some e).
  { unfold escaped. destruct (needs_escaping c).
    - by exists (char_add c 1), [escape_char].
    - by exists c, []. }
  destruct He as (e & es & Hes & Hl).
  pose proof (last_escaped c) as Hle. rewrite Hl in Hle.
  rewrite Hes, app_assoc, last_snoc.
  split; intros H; [f_equal|]; apply Hle; congruence.
Qed.

(** C1: decoding an encoding gives back the input, for every byte sequence;
    and a sequence with none of the bytes 0x00, 0x01, 0x0D, 0xFE is left
    unchanged by encoding. *)
Theorem encode_binary_round_trip :
  (forall x : list byte, unencode_binary (encode_binary x) = x) /\
  (forall x : list byte,
      (forall c, c ∈ x -> c <> x00 /\ c <> x01 /\ c <> x0d /\ c <> xfe) ->
      encode_binary x = x).
Proof.
  split.
  - intros x. rewrite encode_binary_ref, unencode_binary_ref.
    rewrite <- (app_nil_r (encode_ref x)), decode_encode_ref.
    apply app_nil_r.
  - intros x Hx. rewrite encode_binary_ref. apply encode_ref_plain.
    apply Forall_forall. intros c Hc.
    destruct (needs_escaping c) eqn:He; [|done].
    apply needs_escaping_spec in He. specialize (Hx c Hc). tauto.
Qed.

Lemma encode_binary_round_trip_witness :
  unencode_binary (encode_binary [x00; x41; x01; xfe; x0d; xff]) =
    [x00; x41; x01; xfe; x0d; xff] /\
  encode_binary [x41; x0a; xff] = [x41; x0a; xff].
Proof.
  split.
  - apply (proj1 encode_binary_round_trip).
  - apply (proj2 encode_binary_round_trip). intros c Hc.
    repeat (apply elem_of_cons in Hc as [->|Hc];
            [repeat split; discriminate|]).
    by apply elem_of_nil in Hc.
Defined.

(** C9: [unencode_binary] is a total function that never produces more
    bytes than it reads; a marker with no byte after it is emitted as it
    is, a marker with a byte [b] after it consumes both and emits [b - 1],
    and every other byte is copied.  So a marker that ends the input,
    after any run of whole tokens (an encoding, for one), comes out as it
    is. *)
Theorem unencode_binary_graceful :
  (forall s : list byte,
      exists out, unencode_binary s = out /\ length out <= length s) /\
  unencode_binary [] = [] /\
  unencode_binary [escape_char] = [escape_char] /\
  (forall b rest,
      unencode_binary (escape_char :: b :: rest)
      = char_sub b 1 :: unencode_binary rest) /\
  (forall c rest,
      c <> escape_char ->
      unencode_binary (c :: rest) = c :: unencode_binary rest) /\
  (forall p : list byte,
      whole_tokens p ->
      unencode_binary (p ++ [escape_char])
      = unencode_binary p ++ [escape_char]) /\
  (forall x : list byte,
      unencode_binary (encode_binary x ++ [escape_char])
      = x ++ [escape_char]).
Proof.
  repeat apply conj.
  - intros s. eexists. split; [done|]. rewrite unencode_binary_ref.
    by apply (decode_ref_length (length s)).
  - reflexivity.
  - reflexivity.
  - intros b rest. by rewrite !unencode_binary_ref.
  - intros c rest Hc. rewrite !unencode_binary_ref.
    by apply decode_ref_plain.
  - intros p Hp. rewrite !unencode_binary_ref.
    by apply decode_ref_trailing_marker.
  - intros x. rewrite encode_binary_ref, unencode_binary_ref.
    by rewrite decode_encode_ref.
Qed.

Lemma unencode_binary_graceful_witness :
  unencode_binary (x41 :: [x01; x0e]) = x41 :: unencode_binary [x01; x0e] /\
  unencode_binary ([x41; x01; x01] ++ [x01])
  = unencode_binary [x41; x01; x01] ++ [x01].
Proof.
  pose proof unencode_binary_graceful as (_ & _ & _ & _ & Hplain & Hlast & _).
  split.
  - apply Hplain. discriminate.
  - apply Hlast. apply wt_plain; [discriminate|]. apply wt_pair, wt_nil.
Defined.

(** *** Markers of an encoding *)

Lemma plain_not_marker (c : byte) :
  needs_escaping c = false -> Byte.eqb c escape_char = false.
Proof. destruct c; try discriminate; reflexivity. Qed.

Lemma encode_ref_cons (c : byte) (str : list byte) :
  encode_ref (c :: str) = escaped c ++ encode_ref str.
Proof. reflexivity. Qed.

Lemma read_markers_encode_ref_cons (c : byte) (str : list byte) (pos : nat) :
  read_markers_from (encode_ref (c :: str)) pos =
  if needs_escaping c
  then pos :: read_markers_from (encode_ref str) (S (S pos))
  else read_markers_from (encode_ref str) (S pos).
Proof.
  rewrite encode_ref_cons. unfold escaped.
  destruct (needs_escaping c) eqn:Hc.
  - reflexivity.
  - cbn [app read_markers_from]. by rewrite plain_not_marker.
Qed.

(** The markers the decoder reads in an encoding are the ones the encoder
    wrote. *)
Lemma marker_step_fold (str : list byte) (ms : list nat) (n : nat) :
  fst (fold_left marker_step str (ms, n))
  = ms ++ read_markers_from (encode_ref str) n.
Proof.
  revert ms n. induction str as [|c str IH]; intros ms n.
  - simpl. by rewrite app_nil_r.
  - rewrite read_markers_encode_ref_cons.
    cbn [fold_left marker_step].
    destruct (needs_escaping c); rewrite IH; [|done].
    by rewrite <- app_assoc.
Qed.

Lemma written_markers_read (str : list byte) :
  written_markers str = read_markers (encode_ref str).
Proof. unfold written_markers. by rewrite marker_step_fold. Qed.

(** A marker of an encoding has a payload after it. *)
Lemma read_markers_followed (str : list byte) (pos i : nat) :
  i ∈ read_markers_from (encode_ref str) pos ->
  exists k c,
    i = pos + k /\ encode_ref str !! k = Some escape_char /\
    needs_escaping c = true /\ encode_ref str !! S k = Some (char_add c 1).
Proof.
  revert pos. induction str as [|c str IH]; intros pos Hi.
  - by apply elem_of_nil in Hi.
  - rewrite read_markers_encode_ref_cons in Hi. rewrite encode_ref_cons.
    unfold escaped. destruct (needs_escaping c) eqn:Hc.
    + apply elem_of_cons in Hi as [->|Hi].
      * exists 0, c. repeat apply conj; [lia|done|done|done].
      * destruct (IH _ Hi) as (k & c' & -> & Hk & Hc' & Hk').
        exists (S (S k)), c'. repeat apply conj; [lia|done|done|done].
    + destruct (IH _ Hi) as (k & c' & -> & Hk & Hc' & Hk').
      exists (S k), c'. repeat apply conj; [lia|done|done|done].
Qed.

(** A byte of value 0x01 in an encoding is a marker or the payload of the
    marker just before it. *)
Lemma encode_ref_marker_or_payload (str : list byte) (pos i : nat) :
  encode_ref str !! i = Some escape_char ->
  pos + i ∈ read_markers_from (encode_ref str) pos \/
  exists j, i = S j /\ pos + j ∈ read_markers_from (encode_ref str) pos.
Proof.
  revert pos i. induction str as [|c str IH]; intros pos i Hi.
  - change (encode_ref []) with (@nil byte) in Hi.
    by rewrite lookup_nil in Hi.
  - rewrite read_markers_encode_ref_cons. rewrite encode_ref_cons in Hi.
    unfold escaped in Hi. destruct (needs_escaping c) eqn:Hc.
    + destruct i as [|[|i]].
      * left. replace (pos + 0) with pos by lia. by left.
      * right. exists 0. split; [done|].
        replace (pos + 0) with pos by lia. by left.
      * simpl in Hi.
        destruct (IH (S (S pos)) i Hi) as [Hm|(j & -> & Hm)].
        -- left. right. by replace (pos + S (S i)) with (S (S pos) + i) by lia.
        -- right. exists (S (S j)). split; [done|]. right.
           by replace (pos + S (S j)) with (S (S pos) + j) by lia.
    + destruct i as [|i]; simpl in Hi.
      * injection Hi as ->. discriminate Hc.
      * destruct (IH (S pos) i Hi) as [Hm|(j & -> & Hm)].
        -- left. by replace (pos + S i) with (S pos + i) by lia.
        -- right. exists (S j). split; [done|].
           by replace (pos + S j) with (S pos + j) by lia.
Qed.

(** C10: the output of [encode_binary] holds none of the bytes 0x00, 0x0D,
    0xFE, and every marker in it is immediately followed by another byte:
    the marker is never the last byte of the output.  The markers are the
    bytes the encoder writes as [escape_char], and they are the ones the
    decoder reads as such in the output; the byte after a marker is the
    successor of an escaped byte.  A byte of value 0x01 in the output that
    is no marker is the byte right after one (0x01 0x01 encodes 0x00), which
    is how an output can end in 0x01: it does exactly when the input ends
    in 0x00. *)
Theorem encode_binary_output_shape (x : list byte) :
  (forall b, b ∈ encode_binary x -> b <> x00 /\ b <> x0d /\ b <> xfe) /\
  escaped_stream (encode_binary x) /\
  read_markers (encode_binary x) = written_markers x /\
  (forall i, i ∈ written_markers x ->
     encode_binary x !! i = Some escape_char /\
     S i < length (encode_binary x) /\
     exists c, needs_escaping c = true /\
               encode_binary x !! S i = Some (char_add c 1)) /\
  (forall i, encode_binary x !! i = Some escape_char ->
     i ∈ written_markers x \/
     exists j, i = S j /\ j ∈ written_markers x) /\
  (last (encode_binary x) = Some escape_char <-> last x = Some x00).
Proof.
  rewrite written_markers_read, encode_binary_ref.
  pose proof (encode_ref_stream x) as Hs.
  repeat apply conj.
  - by eapply escaped_stream_bytes.
  - done.
  - done.
  - intros i Hi.
    destruct (read_markers_followed x 0 i Hi) as (k & c & -> & Hk & Hc & Hk').
    repeat apply conj; [done| |by exists c].
    by apply lookup_lt_is_Some.
  - intros i Hi. by apply (encode_ref_marker_or_payload x 0 i).
  - by apply encode_ref_last.
  - by apply encode_ref_last.
Qed.

Lemma encode_binary_output_shape_witness :
  encode_binary [x41; x00] !! 1 = Some escape_char /\
  2 < length (encode_binary [x41; x00]) /\
  exists c, needs_escaping c = true /\
            encode_binary [x41; x00] !! 2 = Some (char_add c 1).
Proof.
  apply (proj1 (proj2 (proj2 (proj2
           (encode_binary_output_shape [x41; x00])))) 1).
  apply (bool_decide_unpack _). vm_compute. exact I.
Defined.

End CodecFacts.
Module NamesFacts.
Import Names.

Local Open Scope Z_scope.

(** *** Facts about the string operations *)

Lemma append_cons (a : ascii) (s t : string) :
  String a s +:+ t = String a (s +:+ t).
Proof. reflexivity. Qed.

Lemma append_empty_l (t : string) : "" +:+ t = t.
Proof. reflexivity. Qed.

Lemma append_empty_r (s : string) : s +:+ "" = s.
Proof. induction s as [|a s IH]; [done|]. by rewrite append_cons, IH. Qed.

Lemma back_snoc (p : string) (c : ascii) : back (p +:+ String c "") = Some c.
Proof.
  induction p as [|a p IH]; [done|].
  rewrite append_cons. simpl. rewrite IH.
  destruct (p +:+ String c "") eqn:E; [|done].
  by destruct p.
Qed.

Lemma prefix_append (s t : string) : String.prefix s (s +:+ t) = true.
Proof.
  induction s as [|a s IH]; [by destruct t|].
  rewrite append_cons. simpl.
  destruct (ascii_dec a a); [done|congruence].
Qed.

Lemma find_unfold (needle s : string) :
  find needle s
  = if String.prefix needle s then Some 0%nat
    else match s with
         | EmptyString => None
         | String _ s' => S <$> find needle s'
         end.
Proof. by destruct s. Qed.

Lemma find_infix (needle a b : string) : find needle (a +:+ needle +:+ b) <> None.
Proof.
  induction a as [|x a IH].
  - by rewrite append_empty_l, find_unfold, prefix_append.
  - rewrite append_cons, find_unfold.
    destruct (String.prefix needle (String x (a +:+ needle +:+ b))); [done|].
    destruct (find needle (a +:+ needle +:+ b)); done.
Qed.

(** [name.substr(0, name.find('.'))] is the part of [name] before its
    first dot. *)
Lemma stem_before_first_dot (stem rest : string) :
  "."%char ∉ String.list_ascii_of_string stem ->
  rest = "" \/ (exists r, rest = String "." r) ->
  substr0 (stem +:+ rest) (find_char "." (stem +:+ rest)) = stem.
Proof.
  intros Hstem Hrest.
  assert (Hfind : find_char "." (stem +:+ rest)
                  = if bool_decide (rest = "") then None
                    else Some (String.length stem)).
  { clear -Hstem Hrest.
    induction stem as [|a stem IH]; rewrite ?append_cons; simpl in *.
    - destruct Hrest as [->|[r ->]]; done.
    - apply not_elem_of_cons in Hstem as [Ha Hstem].
      destruct (Ascii.eqb_spec a "."); [congruence|].
      rewrite IH by done. by case_bool_decide. }
  rewrite Hfind. case_bool_decide as Hr.
  - subst rest. apply append_empty_r.
  - clear. simpl. induction stem as [|a stem IH]; rewrite ?append_cons; simpl.
    + by destruct rest.
    + by rewrite IH.
Qed.

Lemma is_ascii_cons (a : ascii) (s : string) :
  is_ascii (String a s) = (Z.of_N (N_of_ascii a) <? 0x80) && is_ascii s.
Proof. reflexivity. Qed.

(** The UTF-8 conversion of the model leaves ASCII strings as they are. *)
Lemma model_ascii (s : string) :
  is_ascii s = true ->
  utf8_to_ucs4_model s = byte_codes s /\
  ucs4_to_utf8_model (byte_codes s) = s.
Proof.
  unfold utf8_to_ucs4_model, ucs4_to_utf8_model.
  induction s as [|a s IH]; [done|].
  rewrite is_ascii_cons. intros [Ha Hs]%andb_true_iff.
  destruct (IH Hs) as [IH1 IH2].
  change (byte_codes (String a s))
    with (Z.of_N (N_of_ascii a) :: byte_codes s).
  split.
  - simpl. rewrite Ha. by rewrite IH1.
  - simpl. unfold utf8_encode_char at 1. rewrite Ha.
    unfold string_of_codes in *. simpl. rewrite IH2.
    by rewrite N2Z.id, ascii_N_embedding.
Qed.

(** *** Facts about the forbidden code points *)

Lemma illegal_cases (c : Z) :
  addon_filename_ucs4char_illegal c = true \/
  addon_filename_ucs4char_illegal c
  = (c <? 0x20) || ((0x80 <=? c) && (c <? 0xA0))
    || ((0xD800 <=? c) && (c <? 0xE000)).
Proof.
  unfold addon_filename_ucs4char_illegal.
  destruct c as [|p|p]; try (by right).
  do 7 (try destruct p as [p|p|]); try (by right); try (by left).
Qed.

Lemma illegal_denylist (c : Z) :
  c ∈ [32; 34; 42; 47; 58; 60; 62; 63; 92; 124; 126; 127]
  \/ c < 0x20 \/ 0x80 <= c <= 0x9F \/ 0xD800 <= c <= 0xDFFF ->
  addon_filename_ucs4char_illegal c = true.
Proof.
  intros [Hc|Hc].
  - repeat (apply elem_of_cons in Hc as [->|Hc]; [reflexivity|]).
    by apply elem_of_nil in Hc.
  - destruct (illegal_cases c) as [->| ->]; [done|].
    apply orb_true_iff. rewrite orb_true_iff, !andb_true_iff.
    rewrite !Z.ltb_lt, !Z.leb_le. lia.
Qed.

Lemma find_illegal_Some (l : list Z) (c : Z) :
  c ∈ l -> addon_filename_ucs4char_illegal c = true ->
  List.find addon_filename_ucs4char_illegal l <> None.
Proof.
  intros Hc Hi Hnone. apply list_elem_of_In in Hc.
  pose proof (find_none _ _ Hnone c Hc). congruence.
Qed.

Section LegalFacts.

Variable utf8_to_ucs4 : string -> list Z.
Variable ucs4_to_utf8 : list Z -> string.

Lemma legal_shape_false (name : string) :
  name = "" \/ back name = Some "."%char \/ find ".." name <> None
  \/ (255 < String.length name)%nat ->
  addon_filename_legal utf8_to_ucs4 ucs4_to_utf8 name = false.
Proof.
  intros H. unfold addon_filename_legal.
  assert (Hc : bool_decide (name = "")
               || bool_decide (back name = Some "."%char)
               || bool_decide (find ".." name <> None)
               || (255 <? String.length name)%nat = true).
  { rewrite !orb_true_iff, !bool_decide_eq_true, Nat.ltb_lt. tauto. }
  by rewrite Hc.
Qed.

Lemma legal_stem_false (name : string) :
  to_upper_copy (substr0 name (find_char "." name)) ∈ dos_device_names ->
  addon_filename_legal utf8_to_ucs4 ucs4_to_utf8 name = false.
Proof.
  intros H. unfold addon_filename_legal.
  destruct (_ || _); [done|].
  by rewrite bool_decide_eq_true_2.
Qed.

Lemma legal_ascii_true (name : string) :
  utf8_to_ucs4 name = byte_codes name ->
  ucs4_to_utf8 (byte_codes name) = name ->
  addon_filename_legal (fun _ => byte_codes name) (fun _ => name) name = true ->
  addon_filename_legal utf8_to_ucs4 ucs4_to_utf8 name = true.
Proof.
  unfold addon_filename_legal. intros -> ->. done.
Qed.

(** C4: a name that is empty, ends in a dot, holds two dots in a row or is
    longer than 255 bytes is rejected; so is a name whose part before the
    first dot is, once upper-cased in ASCII, a reserved device name,
    whatever follows that dot.  The names listed by the specification are
    rejected and accepted as it says, for any UTF-8 conversion that leaves
    ASCII strings as they are. *)
Theorem addon_filename_legal_shape
  (Hascii : forall s, is_ascii s = true ->
      utf8_to_ucs4 s = byte_codes s /\ ucs4_to_utf8 (byte_codes s) = s) :
  (forall name : string,
      name = ""
      \/ (exists p, name = p +:+ ".")
      \/ (exists a b, name = a +:+ ".." +:+ b)
      \/ (255 < String.length name)%nat
      \/ (exists stem rest,
            name = stem +:+ rest /\
            ("."%char ∉ String.list_ascii_of_string stem) /\
            (rest = "" \/ exists r, rest = String "." r) /\
            to_upper_copy stem ∈ dos_device_names) ->
      addon_filename_legal utf8_to_ucs4 ucs4_to_utf8 name = false) /\
  addon_filename_legal utf8_to_ucs4 ucs4_to_utf8 "" = false /\
  addon_filename_legal utf8_to_ucs4 ucs4_to_utf8 "a." = false /\
  addon_filename_legal utf8_to_ucs4 ucs4_to_utf8 "a..b" = false /\
  addon_filename_legal utf8_to_ucs4 ucs4_to_utf8 (repeat_char "x" 256) = false /\
  addon_filename_legal utf8_to_ucs4 ucs4_to_utf8 "CON" = false /\
  addon_filename_legal utf8_to_ucs4 ucs4_to_utf8 "con.txt" = false /\
  addon_filename_legal utf8_to_ucs4 ucs4_to_utf8 "COM1.backup" = false /\
  addon_filename_legal utf8_to_ucs4 ucs4_to_utf8 "CONOUT$" = false /\
  addon_filename_legal utf8_to_ucs4 ucs4_to_utf8 "readme.txt" = true /\
  addon_filename_legal utf8_to_ucs4 ucs4_to_utf8 "CONTROL.cfg" = true /\
  addon_filename_legal utf8_to_ucs4 ucs4_to_utf8 "a-b_c.1" = true.
Proof.
  split.
  { intros name [->|[[p ->]|[(a & b & ->)|[Hlen|Hstem]]]].
    - by apply legal_shape_false; left.
    - apply legal_shape_false. right; left. apply back_snoc.
    - apply legal_shape_false. right; right; left. apply find_infix.
    - apply legal_shape_false. tauto.
    - destruct Hstem as (stem & rest & -> & Hdot & Hrest & Hdev).
      apply legal_stem_false. by rewrite stem_before_first_dot. }
  repeat apply conj.
  - by apply legal_shape_false; left.
  - apply legal_shape_false. right; left. reflexivity.
  - apply legal_shape_false. right; right; left. vm_compute. discriminate.
  - apply legal_shape_false. right; right; right. vm_compute. lia.
  - apply legal_stem_false. apply (bool_decide_unpack _). by vm_compute.
  - apply legal_stem_false. apply (bool_decide_unpack _). by vm_compute.
  - apply legal_stem_false. apply (bool_decide_unpack _). by vm_compute.
  - apply legal_stem_false. apply (bool_decide_unpack _). by vm_compute.
  - apply legal_ascii_true; [by apply Hascii..|]. vm_compute. reflexivity.
  - apply legal_ascii_true; [by apply Hascii..|]. vm_compute. reflexivity.
  - apply legal_ascii_true; [by apply Hascii..|]. vm_compute. reflexivity.
Qed.

(** C5: a name that decoding as UTF-8 and re-encoding does not reproduce is
    rejected, and so is a name with a decoded code point on the deny
    list: space, double quote, asterisk, slash, colon, less-than,
    greater-than, question mark, backslash, vertical bar, tilde, DEL, a
    code point below 0x20, one in 0x80-0x9F, or one in 0xD800-0xDFFF. *)
Theorem addon_filename_legal_unicode (name : string) :
  (ucs4_to_utf8 (utf8_to_ucs4 name) <> name ->
   addon_filename_legal utf8_to_ucs4 ucs4_to_utf8 name = false) /\
  (forall c : Z,
      c ∈ utf8_to_ucs4 name ->
      c ∈ [32; 34; 42; 47; 58; 60; 62; 63; 92; 124; 126; 127]
      \/ c < 0x20 \/ 0x80 <= c <= 0x9F \/ 0xD800 <= c <= 0xDFFF ->
      addon_filename_legal utf8_to_ucs4 ucs4_to_utf8 name = false).
Proof.
  split.
  - intros Hne. unfold addon_filename_legal.
    destruct (_ || _); [done|]. case_bool_decide; [done|].
    by rewrite bool_decide_eq_true_2.
  - intros c Hc Hdeny. unfold addon_filename_legal.
    destruct (_ || _); [done|]. do 2 (case_bool_decide; [done|]).
    pose proof (find_illegal_Some _ c Hc (illegal_denylist c Hdeny)).
    by destruct (List.find _ _).
Qed.

End LegalFacts.

Lemma addon_filename_legal_shape_witness :
  addon_filename_legal utf8_to_ucs4_model ucs4_to_utf8_model "Con.foo.bar"
  = false.
Proof.
  apply (proj1 (addon_filename_legal_shape
                  utf8_to_ucs4_model ucs4_to_utf8_model model_ascii)).
  do 4 right. exists "Con", ".foo.bar". split; [reflexivity|].
  split; [|split].
  - intros H. repeat (apply elem_of_cons in H as [H|H]; [discriminate H|]).
    by apply elem_of_nil in H.
  - right. by exists "foo.bar".
  - apply (bool_decide_unpack _). vm_compute. exact I.
Defined.

Lemma addon_filename_legal_unicode_witness :
  addon_filename_legal utf8_to_ucs4_model ucs4_to_utf8_model
    (String (ascii_of_nat 192) (String (ascii_of_nat 175) "")) = false /\
  addon_filename_legal utf8_to_ucs4_model ucs4_to_utf8_model "a b" = false.
Proof.
  split.
  - apply (proj1 (addon_filename_legal_unicode
                    utf8_to_ucs4_model ucs4_to_utf8_model _)).
    vm_compute. discriminate.
  - apply (proj2 (addon_filename_legal_unicode
                    utf8_to_ucs4_model ucs4_to_utf8_model _) 32).
    + vm_compute. apply list_elem_of_In. simpl. tauto.
    + left. apply list_elem_of_In. simpl. tauto.
Defined.

End NamesFacts.
Module TreeFacts.
Import Names Tree.

(** *** Loops over children *)

Lemma for_each_child_fold {S : Type} (tag : string) (body : config -> S -> S)
    (cfg : config) (st : S) :
  for_each_child tag body (children cfg) st
  = fold_left (fun st c => body c st) (child_range tag cfg) st.
Proof.
  unfold child_range. generalize (children cfg) as cs. intros cs. revert st.
  induction cs as [|[t c] cs IH]; intros st; [done|].
  simpl. case_bool_decide; simpl; apply IH.
Qed.

Lemma for_each_child_until_fold {S R : Type} (tag : string)
    (body : config -> S -> S + R) (cfg : config) (st : S) :
  for_each_child_until tag body (children cfg) st
  = fold_until body (child_range tag cfg) st.
Proof.
  unfold child_range. generalize (children cfg) as cs. intros cs. revert st.
  induction cs as [|[t c] cs IH]; intros st; [done|].
  simpl. case_bool_decide; simpl; [|apply IH].
  destruct (body c st); [apply IH|done].
Qed.

Lemma fold_until_check {A : Type} (ok : A -> bool) (l : list A) :
  fold_until (fun c (_ : unit) => if negb (ok c) then inr false else inl tt)
             l tt
  = if forallb ok l then inl tt else inr false.
Proof.
  induction l as [|c l IH]; [done|].
  simpl. destruct (ok c); simpl; [apply IH|done].
Qed.

Lemma forallb_pointwise {A : Type} (f g : A -> bool) (l : list A) :
  (forall x, f x = g x) -> forallb f l = forallb g l.
Proof. intros H. induction l as [|x l IH]; simpl; by rewrite ?H, ?IH. Qed.

Lemma fold_left_pointwise {A S : Type} (f g : S -> A -> S) (l : list A) :
  (forall st a, f st a = g st a) ->
  forall st, fold_left f l st = fold_left g l st.
Proof.
  intros H. induction l as [|a l IH]; intros st; simpl; [done|].
  by rewrite H, IH.
Qed.

Lemma child_range_Forall (P : config -> Prop) (tag : string) (cfg : config) :
  Forall (fun p => P p.2) (children cfg) -> Forall P (child_range tag cfg).
Proof.
  unfold child_range. induction 1 as [|[t c] cs Hc _ IH]; [constructor|].
  simpl. case_bool_decide; simpl; [by constructor|done].
Qed.

Lemma dir_names_distinct_eq (cfg : config) :
  dir_names_distinct cfg
  = bool_decide (NoDup ((fun d => attr d "name") <$> child_range "dir" cfg))
    && forallb dir_names_distinct (child_range "dir" cfg).
Proof.
  destruct cfg as [vs cs].
  change (dir_names_distinct (Config vs cs))
    with (bool_decide (NoDup ((fun d => attr d "name")
                                <$> child_range "dir" (Config vs cs)))
          && for_each_child "dir" (fun d ok => ok && dir_names_distinct d)
               (children (Config vs cs)) true).
  f_equal. rewrite for_each_child_fold.
  generalize (child_range "dir" (Config vs cs)) as l. intros l.
  assert (H : forall b, fold_left (fun st c => st && dir_names_distinct c) l b
                        = b && forallb dir_names_distinct l).
  { induction l as [|c l IH]; intros b; simpl; [by rewrite andb_true_r|].
    by rewrite IH, andb_assoc. }
  apply H.
Qed.

(** With distinct names, the first subdirectory named like [d] is [d]. *)
Lemma find_by_name (l : list config) (d : config) :
  NoDup ((fun c => attr c "name") <$> l) -> d ∈ l ->
  List.find (fun c => bool_decide (attr c "name" = attr d "name")) l = Some d.
Proof.
  induction l as [|c l IH]; intros Hnd Hd; [by apply elem_of_nil in Hd|].
  rewrite fmap_cons in Hnd. apply NoDup_cons in Hnd as [Hc Hnd].
  simpl. apply elem_of_cons in Hd as [->|Hd].
  - by rewrite bool_decide_eq_true_2.
  - rewrite bool_decide_eq_false_2; [by apply IH|].
    intros Heq. apply Hc. rewrite Heq.
    apply list_elem_of_fmap. by exists d.
Qed.

Lemma origin_dir_self (cfg d : config) :
  NoDup ((fun c => attr c "name") <$> child_range "dir" cfg) ->
  d ∈ child_range "dir" cfg ->
  origin_dir cfg d = d.
Proof.
  intros Hnd Hd. unfold origin_dir, find_child.
  by rewrite find_by_name.
Qed.

Lemma filter_none {A : Type} (P : A -> Prop) `{!forall x, Decision (P x)}
    (l : list A) :
  (forall x, x ∈ l -> ~ P x) -> filter P l = [].
Proof.
  induction l as [|a l IH]; intros Hl; [done|].
  rewrite filter_cons_False by (apply Hl; left).
  apply IH. intros x Hx. apply Hl. by right.
Qed.

Lemma omap_tagged (tag tag' : string) (mk : config -> config)
    (l : list config) :
  omap (fun p : string * config =>
          if bool_decide (p.1 = tag) then Some p.2 else None)
       ((fun a => (tag', mk a)) <$> l)
  = if bool_decide (tag' = tag) then mk <$> l else [].
Proof.
  destruct (bool_decide (tag' = tag)) eqn:Ht;
    induction l as [|a l IH]; simpl; rewrite ?Ht; simpl;
    first [done | f_equal; exact IH | exact IH].
Qed.

Lemma fold_add_child {A : Type} (tag : string) (mk : A -> config)
    (l : list A) (pack : config) :
  fold_left (fun pack a => add_child pack tag (mk a)) l pack
  = Config (values pack) (children pack ++ ((fun a => (tag, mk a)) <$> l)).
Proof.
  revert pack. induction l as [|a l IH]; intros pack; simpl.
  - rewrite app_nil_r. by destruct pack.
  - rewrite IH. unfold add_child. simpl. by rewrite <- app_assoc.
Qed.

(** *** Case-insensitive duplicates *)

Lemma seen_as_empty (prefix : string) : seen_as prefix [] ∅.
Proof. intros key. by rewrite lookup_empty. Qed.

Lemma record_name_diagnostic (prefix name : string) (earlier : list string)
    (filenames : gmap string (bool * string)) (bl : list string) :
  seen_as prefix earlier filenames ->
  exists filenames',
    record_name prefix name filenames (Some bl)
    = Some (filenames', Some (bl ++ collision_report prefix earlier name))
    /\ seen_as prefix (earlier ++ [name]) filenames'.
Proof.
  intros Hseen. unfold record_name, collision_report. cbv zeta.
  pose proof (Hseen (to_lower_copy name)) as Hname. rewrite Hname.
  assert (Hother : forall key,
             key <> to_lower_copy name ->
             filter (fun n => to_lower_copy n = key) (earlier ++ [name])
             = filter (fun n => to_lower_copy n = key) earlier).
  { intros key Hkey. rewrite filter_app, filter_cons_False by congruence.
    rewrite filter_nil. apply app_nil_r. }
  assert (Hsame :
             filter (fun n => to_lower_copy n = to_lower_copy name)
                    (earlier ++ [name])
             = filter (fun n => to_lower_copy n = to_lower_copy name) earlier
               ++ [name]).
  { rewrite filter_app, filter_cons_True by done. by rewrite filter_nil. }
  destruct (filter (fun n => to_lower_copy n = to_lower_copy name) earlier)
    as [|original [|second rest]] eqn:Hf.
  - eexists. split; [by rewrite app_nil_r|].
    intros key. destruct (decide (key = to_lower_copy name)) as [->|Hkey].
    + by rewrite lookup_insert_eq, Hsame.
    + rewrite lookup_insert_ne by done. rewrite Hother by done. apply Hseen.
  - simpl. eexists. split; [by rewrite <- app_assoc|].
    intros key. destruct (decide (key = to_lower_copy name)) as [->|Hkey].
    + by rewrite lookup_insert_eq, Hsame.
    + rewrite lookup_insert_ne by done. rewrite Hother by done. apply Hseen.
  - simpl. eexists. split; [done|].
    intros key. destruct (decide (key = to_lower_copy name)) as [->|Hkey].
    + by rewrite Hname, Hsame.
    + rewrite Hother by done. apply Hseen.
Qed.

Lemma files_loop_diagnostic (prefix : string) (l : list config) :
  forall (earlier : list string) (filenames : gmap string (bool * string))
         (bl : list string),
    seen_as prefix earlier filenames ->
    exists filenames',
      fold_until
        (fun path '(filenames, badlist) =>
           match record_name prefix (attr path "name") filenames badlist with
           | Some st => inl st
           | None => inr (false, badlist)
           end)
        l (filenames, Some bl)
      = inl (filenames',
             Some (bl ++ level_report prefix earlier
                           ((fun c => attr c "name") <$> l)))
      /\ seen_as prefix (earlier ++ ((fun c => attr c "name") <$> l))
                  filenames'.
Proof.
  induction l as [|c l IH]; intros earlier filenames bl Hseen.
  - exists filenames. simpl. by rewrite !app_nil_r.
  - simpl.
    destruct (record_name_diagnostic prefix (attr c "name") earlier
                filenames bl Hseen) as (fn1 & -> & Hseen1).
    destruct (IH _ _ (bl ++ collision_report prefix earlier (attr c "name"))
                Hseen1) as (fn2 & -> & Hseen2).
    exists fn2. rewrite <- !app_assoc in *. by split.
Qed.

Lemma duplicate_report_eq (dir : config) (prefix : string) :
  duplicate_report dir prefix
  = let file_names := (fun c => attr c "name") <$> child_range "file" dir in
    snd (fold_left
           (fun (st : list string * list string) path =>
              let '(earlier, out) := st in
              let name := attr path "name" in
              (earlier ++ [name],
               out ++ collision_report prefix earlier name
                   ++ duplicate_report path (prefix +:+ name +:+ "/")))
           (child_range "dir" dir)
           (file_names, level_report prefix [] file_names)).
Proof.
  destruct dir as [vs cs]. set (dir := Config vs cs).
  change (duplicate_report dir prefix) with
    (let file_names := (fun c => attr c "name") <$> child_range "file" dir in
     snd (for_each_child "dir"
            (fun path '(earlier, out) =>
               let name := attr path "name" in
               (earlier ++ [name],
                out ++ collision_report prefix earlier name
                    ++ duplicate_report path (prefix +:+ name +:+ "/")))
            (children dir) (file_names, level_report prefix [] file_names))).
  cbv zeta. by rewrite for_each_child_fold.
Qed.

Lemma dirs_loop_diagnostic (prefix : string) (l : list config) :
  Forall (fun c => forall prefix bl,
              check_case_insensitive_duplicates_internal c prefix (Some bl)
              = (bool_decide (bl ++ duplicate_report c prefix = []),
                 Some (bl ++ duplicate_report c prefix))) l ->
  forall (out earlier : list string)
         (filenames : gmap string (bool * string)) (bl : list string),
    seen_as prefix earlier filenames ->
    match
      fold_until
        (fun path '(filenames, badlist) =>
           let filename := attr path "name" in
           match record_name prefix filename filenames badlist with
           | None => inr (false, badlist)
           | Some (filenames, badlist) =>
             let '(ok, badlist) :=
               check_case_insensitive_duplicates_internal
                 path (prefix +:+ filename +:+ "/") badlist in
             if negb ok && negb (bool_decide (is_Some badlist))
             then inr (false, badlist)
             else inl (filenames, badlist)
           end)
        l (filenames, Some (bl ++ out))
    with
    | inr r => r
    | inl (_, badlist) => (badlist_verdict badlist, badlist)
    end
    = let report :=
        snd (fold_left
               (fun (st : list string * list string) path =>
                  let '(earlier, out) := st in
                  let name := attr path "name" in
                  (earlier ++ [name],
                   out ++ collision_report prefix earlier name
                       ++ duplicate_report path (prefix +:+ name +:+ "/")))
               l (earlier, out)) in
      (bool_decide (bl ++ report = []), Some (bl ++ report)).
Proof.
  induction 1 as [|d l Hd _ IHl]; intros out earlier filenames bl Hseen.
  - done.
  - simpl.
    destruct (record_name_diagnostic prefix (attr d "name") earlier filenames
                (bl ++ out) Hseen) as (fn2 & -> & Hseen2).
    rewrite Hd. simpl. rewrite andb_false_r.
    specialize (IHl (out ++ collision_report prefix earlier (attr d "name")
                         ++ duplicate_report d (prefix +:+ attr d "name" +:+ "/"))
                    (earlier ++ [attr d "name"]) fn2 bl Hseen2).
    rewrite <- !app_assoc in *. exact IHl.
Qed.

(** In diagnostic mode the check appends [duplicate_report] to the list. *)
Lemma check_duplicates_diagnostic (dir : config) :
  forall (prefix : string) (bl : list string),
    check_case_insensitive_duplicates_internal dir prefix (Some bl)
    = (bool_decide (bl ++ duplicate_report dir prefix = []),
       Some (bl ++ duplicate_report dir prefix)).
Proof.
  induction dir as [vs cs IH] using config_ind. intros prefix bl.
  set (dir := Config vs cs) in *.
  change (check_case_insensitive_duplicates_internal dir prefix (Some bl)) with
    (match
        for_each_child_until "file"
          (fun path '(filenames, badlist) =>
             match record_name prefix (attr path "name") filenames badlist with
             | Some st => inl st
             | None => inr (false, badlist)
             end)
          (children dir) (∅, Some bl)
      with
      | inr r => r
      | inl st =>
        match
          for_each_child_until "dir"
            (fun path '(filenames, badlist) =>
               let filename := attr path "name" in
               match record_name prefix filename filenames badlist with
               | None => inr (false, badlist)
               | Some (filenames, badlist) =>
                 let '(ok, badlist) :=
                   check_case_insensitive_duplicates_internal
                     path (prefix +:+ filename +:+ "/") badlist in
                 if negb ok && negb (bool_decide (is_Some badlist))
                 then inr (false, badlist)
                 else inl (filenames, badlist)
               end)
            (children dir) st
        with
        | inr r => r
        | inl (_, badlist) => (badlist_verdict badlist, badlist)
        end
      end).
  rewrite duplicate_report_eq.
  cbv zeta. rewrite !for_each_child_until_fold.
  destruct (files_loop_diagnostic prefix (child_range "file" dir) [] ∅ bl
              (seen_as_empty prefix)) as (fn1 & -> & Hseen1).
  simpl in Hseen1. rewrite for_each_child_until_fold.
  pose proof (child_range_Forall
                (fun c => forall prefix bl,
                     check_case_insensitive_duplicates_internal c prefix (Some bl)
                     = (bool_decide (bl ++ duplicate_report c prefix = []),
                        Some (bl ++ duplicate_report c prefix)))
                "dir" dir IH) as Hdirs.
  exact (dirs_loop_diagnostic prefix _ Hdirs
           (level_report prefix []
              ((fun c => attr c "name") <$> child_range "file" dir))
           _ fn1 bl Hseen1).
Qed.

(** C8: with a list to report to, the check appends to it the report of
    the tree; within one directory a name adds nothing when no earlier name
    has its lower-cased form, the earlier name and itself when exactly one
    has (the first collision), and itself alone when several have (a later
    collision); a directory of files only reports its files in order; and
    a directory holding Readme.txt and readme.TXT reports both. *)
Theorem check_case_insensitive_duplicates_reports :
  (forall (dir : config) (prefix : string) (bl : list string),
      check_case_insensitive_duplicates_internal dir prefix (Some bl)
      = (bool_decide (bl ++ duplicate_report dir prefix = []),
         Some (bl ++ duplicate_report dir prefix))) /\
  (forall (prefix : string) (earlier : list string) (name : string),
      let same_key :=
        filter (fun n => to_lower_copy n = to_lower_copy name) earlier in
      (same_key = [] -> collision_report prefix earlier name = []) /\
      (forall original,
          same_key = [original] ->
          collision_report prefix earlier name
          = [prefix +:+ original; prefix +:+ name]) /\
      (forall first second rest,
          same_key = first :: second :: rest ->
          collision_report prefix earlier name = [prefix +:+ name])) /\
  (forall (dir : config) (prefix : string),
      child_range "dir" dir = [] ->
      duplicate_report dir prefix
      = level_report prefix []
          ((fun c => attr c "name") <$> child_range "file" dir)) /\
  check_case_insensitive_duplicates
    (Config ∅ [("file", config_kv "name" "Readme.txt");
               ("file", config_kv "name" "readme.TXT")]) (Some [])
  = (false, Some ["Readme.txt"; "readme.TXT"]).
Proof.
  split; [|split; [|split]].
  - intros dir prefix bl. apply check_duplicates_diagnostic.
  - intros prefix earlier name same_key. unfold collision_report.
    fold same_key. repeat split.
    + by intros ->.
    + by intros original ->.
    + by intros first second rest ->.
  - intros dir prefix Hnone. rewrite duplicate_report_eq, Hnone. done.
  - unfold check_case_insensitive_duplicates.
    rewrite check_duplicates_diagnostic. vm_compute. reflexivity.
Qed.

Lemma check_case_insensitive_duplicates_reports_witness :
  collision_report "" ["Readme.txt"; "other"] "readme.TXT"
  = ["Readme.txt"; "readme.TXT"]
  /\ collision_report "" ["a"; "A"; "b"] "a" = ["a"].
Proof.
  pose proof (proj1 (proj2 check_case_insensitive_duplicates_reports)) as H.
  split.
  - apply (proj1 (proj2 (H "" ["Readme.txt"; "other"] "readme.TXT"))).
    reflexivity.
  - apply (proj2 (proj2 (H "" ["a"; "A"; "b"] "a")) "a" "A" []).
    reflexivity.
Defined.

Section HashingFacts.

Variable md5 : string -> string.

Lemma scan_files_existsb (f : config) (ds : list config) (found : bool) :
  scan_files md5 f ds found = found || existsb (comp_file_hash md5 f) ds.
Proof.
  revert found. induction ds as [|d ds IH]; intros found; simpl.
  - by rewrite orb_false_r.
  - destruct found; simpl; [done|].
    destruct (comp_file_hash md5 f d); [done|]. by rewrite IH.
Qed.

Lemma comp_file_hash_refl (f : config) : comp_file_hash md5 f f = true.
Proof. unfold comp_file_hash. by rewrite !bool_decide_eq_true_2. Qed.

Lemma existsb_self (f : config) (l : list config) :
  f ∈ l -> existsb (comp_file_hash md5 f) l = true.
Proof.
  intros Hf. apply existsb_exists. exists f.
  split; [by apply list_elem_of_In|apply comp_file_hash_refl].
Qed.

(** [contains_hashlist] without its loops. *)
Lemma contains_hashlist_eq (from to : config) :
  contains_hashlist md5 from to
  = forallb (fun f => existsb (comp_file_hash md5 f) (child_range "file" from))
            (child_range "file" to)
    && forallb (fun d => contains_hashlist md5 (origin_dir from d) d)
               (child_range "dir" to).
Proof.
  destruct to as [vs cs].
  set (to := Config vs cs).
  change (contains_hashlist md5 from to) with
    (match
        for_each_child_until "file"
          (fun f (_ : unit) =>
             let found := scan_files md5 f (child_range "file" from) false in
             if negb found then inr false else inl tt)
          (children to) tt
      with
      | inr r => r
      | inl _ =>
        match
          for_each_child_until "dir"
            (fun d (_ : unit) =>
               match find_child from "dir" "name" (attr d "name") with
               | Some origin_dir =>
                 if negb (contains_hashlist md5 origin_dir d) then inr false
                 else inl tt
               | None =>
                 let dummy_dir := config_kv "name" (attr d "name") in
                 if negb (contains_hashlist md5 dummy_dir d) then inr false
                 else inl tt
               end)
            (children to) tt
        with
        | inr r => r
        | inl _ => true
        end
      end).
  rewrite !for_each_child_until_fold. cbv zeta.
  rewrite (fold_until_check
             (fun f => scan_files md5 f (child_range "file" from) false)).
  rewrite (forallb_pointwise _
             (fun f => existsb (comp_file_hash md5 f) (child_range "file" from)))
    by (intros f; by rewrite scan_files_existsb).
  destruct (forallb _ (child_range "file" to)); [|done].
  simpl.
  replace (fold_until _ (child_range "dir" to) tt)
    with (fold_until
            (fun d (_ : unit) =>
               if negb (contains_hashlist md5 (origin_dir from d) d)
               then inr false else @inl unit bool tt)
            (child_range "dir" to) tt).
  2:{ unfold origin_dir.
      generalize (child_range "dir" to) as l. intros l.
      induction l as [|d l IH]; [done|]. simpl.
      destruct (find_child from "dir" "name" (attr d "name")); simpl;
        destruct (contains_hashlist md5 _ d); simpl; done. }
  rewrite (fold_until_check
             (fun d => contains_hashlist md5 (origin_dir from d) d)).
  by destruct (forallb _ _).
Qed.

(** C2, amended: a tree in which no two sibling subdirectories share a name
    (at any depth; files may share names freely) contains itself. *)
Theorem contains_hashlist_refl (T : config) :
  dir_names_distinct T = true ->
  contains_hashlist md5 T T = true.
Proof.
  induction T as [vs cs IH] using config_ind. set (T := Config vs cs) in *.
  rewrite dir_names_distinct_eq, contains_hashlist_eq.
  intros [Hnd Hsub]%andb_true_iff. apply bool_decide_eq_true in Hnd.
  apply andb_true_iff. split.
  - apply forallb_forall. intros f Hf. apply existsb_self.
    by apply list_elem_of_In.
  - apply forallb_forall. intros d Hd. apply list_elem_of_In in Hd.
    rewrite origin_dir_self by done.
    pose proof (child_range_Forall
                  (fun c => dir_names_distinct c = true ->
                            contains_hashlist md5 c c = true)
                  "dir" T IH) as Hall.
    rewrite Forall_forall in Hall. apply Hall; [done|].
    rewrite forallb_forall in Hsub. apply Hsub. by apply list_elem_of_In.
Qed.

(** *** The difference of two trees *)

(** A loop that attaches [mk a] under [tag] for the elements [a] it keeps,
    and raises the flag when it attaches. *)
Lemma fold_attach {A : Type} (tag : string) (keep : A -> bool)
    (mk : A -> config) (l : list A) (pack : config) (flag : bool) :
  fold_left
    (fun (st : config * bool) a =>
       let '(pack, flag) := st in
       if keep a then (add_child pack tag (mk a), true) else (pack, flag))
    l (pack, flag)
  = (Config (values pack)
       (children pack
        ++ ((fun a => (tag, mk a)) <$> filter (fun a => keep a = true) l)),
     flag || bool_decide (filter (fun a => keep a = true) l <> [])).
Proof.
  revert pack flag. induction l as [|a l IH]; intros pack flag.
  - simpl. rewrite app_nil_r, orb_false_r. by destruct pack.
  - simpl. destruct (keep a) eqn:Ha.
    + rewrite IH. rewrite filter_cons_True by done.
      unfold add_child. simpl. rewrite <- app_assoc. simpl.
      by rewrite orb_true_r.
    + rewrite IH. rewrite filter_cons_False by congruence. done.
Qed.

Lemma comp_file_hash_spec (f d : config) :
  comp_file_hash md5 f d = true <-> same_file md5 f d.
Proof.
  unfold comp_file_hash, same_file.
  by rewrite andb_true_iff, !bool_decide_eq_true.
Qed.

Lemma found_spec (f : config) (ds : list config) :
  negb (existsb (comp_file_hash md5 f) ds) = true
  <-> ~ Exists (same_file md5 f) ds.
Proof.
  rewrite negb_true_iff, <- not_true_iff_false, existsb_exists, Exists_exists.
  split; intros H (d & Hd & Hs); apply H; exists d.
  - split; [by apply list_elem_of_In|by apply comp_file_hash_spec].
  - split; [by apply list_elem_of_In|by apply comp_file_hash_spec].
Qed.

(** [write_difference] without its loops. *)
Lemma write_difference_eq (pack from to : config) (with_content : bool) :
  let sub d :=
    write_difference md5 empty_config (origin_dir from d) d with_content in
  let new_files :=
    filter (fun f => ~ Exists (same_file md5 f) (child_range "file" from))
           (child_range "file" to) in
  let new_dirs := filter (fun d => (sub d).2 = true) (child_range "dir" to) in
  write_difference md5 pack from to with_content
  = (Config (<[ "name" := attr to "name" ]> (values pack))
       (children pack
        ++ ((fun f => ("file", diff_file md5 with_content f)) <$> new_files)
        ++ ((fun d => ("dir", (sub d).1)) <$> new_dirs)),
     bool_decide (new_files <> [] \/ new_dirs <> [])).
Proof.
  intros sub new_files new_dirs.
  destruct to as [vs cs]. set (to := Config vs cs) in *.
  change (write_difference md5 pack from to with_content) with
    (for_each_child "dir"
       (fun d '(pack, has_changes) =>
          match find_child from "dir" "name" (attr d "name") with
          | Some origin_dir =>
            let '(dir, changed) :=
              write_difference md5 empty_config origin_dir d with_content in
            if changed then (add_child pack "dir" dir, true)
            else (pack, has_changes)
          | None =>
            let dummy_dir := config_kv "name" (attr d "name") in
            let '(dir, changed) :=
              write_difference md5 empty_config dummy_dir d with_content in
            if changed then (add_child pack "dir" dir, true)
            else (pack, has_changes)
          end)
       (children to)
       (for_each_child "file"
          (fun f '(pack, has_changes) =>
             let found := scan_files md5 f (child_range "file" from) false in
             if negb found then
               let file := empty_config in
               let file := set_attr file "name" (attr f "name") in
               let file :=
                 if with_content then
                   let file := set_attr file "contents" (attr f "contents") in
                   set_attr file "hash" (file_hash md5 f)
                 else file in
               (add_child pack "file" file, true)
             else (pack, has_changes))
          (children to)
          (set_attr pack "name" (attr to "name"), false))).
  rewrite !for_each_child_fold.
  set (keep_file f := negb (existsb (comp_file_hash md5 f)
                                    (child_range "file" from))).
  match goal with
  | |- fold_left ?fd _ (fold_left ?ff _ _) = _ =>
    set (step_dir := fd); set (step_file := ff)
  end.
  rewrite (fold_left_pointwise step_file
              (fun (st : config * bool) f =>
                 let '(pack, flag) := st in
                 if keep_file f
                 then (add_child pack "file" (diff_file md5 with_content f), true)
                 else (pack, flag))).
  2:{ intros [p h] f. subst step_file. cbv beta zeta iota.
      rewrite scan_files_existsb. simpl.
      fold (keep_file f). destruct (keep_file f); [|done].
      by destruct with_content. }
  rewrite (fold_attach "file" keep_file).
  rewrite (fold_left_pointwise step_dir
              (fun (st : config * bool) d =>
                 let '(pack, flag) := st in
                 if (sub d).2 then (add_child pack "dir" (sub d).1, true)
                 else (pack, flag))).
  2:{ intros [p h] d. subst sub step_dir. unfold origin_dir.
      cbv beta zeta iota.
      destruct (find_child from "dir" "name" (attr d "name")); simpl;
        by destruct (write_difference md5 empty_config _ d with_content). }
  rewrite (fold_attach "dir" (fun d => (sub d).2) (fun d => (sub d).1)).
  simpl.
  assert (Hfiles : filter (fun f => keep_file f = true) (child_range "file" to)
                   = new_files).
  { apply list_filter_iff. intros f. apply found_spec. }
  rewrite Hfiles. fold new_dirs. rewrite <- app_assoc. f_equal.
  destruct (bool_decide (new_files <> [])) eqn:Hf;
    destruct (bool_decide (new_dirs <> [])) eqn:Hd; simpl; symmetry;
    rewrite ?bool_decide_eq_true, ?bool_decide_eq_false in *; tauto.
Qed.

(** C6: [write_difference] sets the name of [pack] to that of [to] and
    appends to it, in order, one file entry for each file of [to] for which
    no file of [from] has the same name and hash, and one directory entry
    for each subdirectory of [to] whose own difference (against the first
    subdirectory of [from] of that name, or an empty one) reports changes;
    the flag returned says whether anything was appended; and a file
    entry holds the name, with contents and hash exactly when
    [with_content] is set. *)
Theorem write_difference_spec (pack from to : config) (with_content : bool) :
  let sub d :=
    write_difference md5 empty_config (origin_dir from d) d with_content in
  let new_files :=
    filter (fun f => ~ Exists (same_file md5 f) (child_range "file" from))
           (child_range "file" to) in
  let new_dirs := filter (fun d => (sub d).2 = true) (child_range "dir" to) in
  let entry f := diff_file md5 with_content f in
  write_difference md5 pack from to with_content
  = (Config (<[ "name" := attr to "name" ]> (values pack))
       (children pack
        ++ ((fun f => ("file", entry f)) <$> new_files)
        ++ ((fun d => ("dir", (sub d).1)) <$> new_dirs)),
     bool_decide (new_files <> [] \/ new_dirs <> []))
  /\ (forall f, f ∈ new_files <->
                f ∈ child_range "file" to /\
                ~ exists d, d ∈ child_range "file" from /\
                            attr f "name" = attr d "name" /\
                            file_hash md5 f = file_hash md5 d)
  /\ (forall f,
        values (entry f) !! "name" = Some (attr f "name") /\
        values (entry f) !! "contents"
        = (if with_content then Some (attr f "contents") else None) /\
        values (entry f) !! "hash"
        = (if with_content then Some (file_hash md5 f) else None) /\
        children (entry f) = []).
Proof.
  intros sub new_files new_dirs entry. split; [apply write_difference_eq|].
  split.
  - intros f. subst new_files. rewrite list_elem_of_filter, Exists_exists.
    unfold same_file. tauto.
  - intros f. subst entry. unfold diff_file. by destruct with_content.
Qed.

Lemma write_difference_same (T : config) :
  dir_names_distinct T = true ->
  forall pack with_content,
    write_difference md5 pack T T with_content
    = (set_attr pack "name" (attr T "name"), false).
Proof.
  induction T as [vs cs IH] using config_ind. set (T := Config vs cs) in *.
  rewrite dir_names_distinct_eq.
  intros [Hnd Hsub]%andb_true_iff pack with_content.
  apply bool_decide_eq_true in Hnd.
  rewrite write_difference_eq.
  rewrite (filter_none (fun f => ~ Exists _ _)).
  2:{ intros f Hf Hno. apply Hno. apply Exists_exists. by exists f. }
  rewrite (filter_none (fun d => _ = true)).
  2:{ intros d Hd. rewrite origin_dir_self by done.
      pose proof (child_range_Forall
                    (fun c => dir_names_distinct c = true ->
                              forall pack with_content,
                                write_difference md5 pack c c with_content
                                = (set_attr pack "name" (attr c "name"), false))
                    "dir" T IH) as Hall.
      rewrite Forall_forall in Hall. rewrite Hall; [done|done|].
      rewrite forallb_forall in Hsub. apply Hsub. by apply list_elem_of_In. }
  simpl. by rewrite app_nil_r.
Qed.

(** C3, amended: for a tree in which no two sibling subdirectories share a
    name (at any depth), the update pack from the tree to itself gains a
    remove list and an add list that hold the tree's name and no file or
    directory entry. *)
Theorem make_updatepack_same_tree (pack T : config) :
  dir_names_distinct T = true ->
  exists removelist addlist,
    make_updatepack md5 pack T T
    = Config (values pack)
        (children pack ++ [("removelist", removelist); ("addlist", addlist)])
    /\ removelist = config_kv "name" (attr T "name")
    /\ addlist = config_kv "name" (attr T "name")
    /\ child_range "file" removelist = [] /\ child_range "dir" removelist = []
    /\ child_range "file" addlist = [] /\ child_range "dir" addlist = [].
Proof.
  intros HT. exists (config_kv "name" (attr T "name")),
               (config_kv "name" (attr T "name")).
  split; [|done].
  unfold make_updatepack. rewrite !write_difference_same by done.
  unfold add_child, set_attr, config_kv, empty_config. simpl.
  by rewrite <- app_assoc.
Qed.

(** *** Hash lists *)

(** [write_hashlist] without its loops. *)
Lemma write_hashlist_eq (hashlist data : config) :
  write_hashlist md5 hashlist data
  = Config (<[ "name" := attr data "name" ]> (values hashlist))
      (children hashlist
       ++ ((fun f => ("file", hash_entry md5 f)) <$> child_range "file" data)
       ++ ((fun d => ("dir", write_hashlist md5 empty_config d))
             <$> child_range "dir" data)).
Proof.
  destruct data as [vs cs]. set (data := Config vs cs) in *.
  change (write_hashlist md5 hashlist data) with
    (for_each_child "dir"
       (fun d hashlist =>
          let dir := write_hashlist md5 empty_config d in
          add_child hashlist "dir" dir)
       (children data)
       (for_each_child "file"
          (fun f hashlist =>
             let file := empty_config in
             let file := set_attr file "name" (attr f "name") in
             let file := set_attr file "hash" (file_hash_raw md5 f) in
             add_child hashlist "file" file)
          (children data)
          (set_attr hashlist "name" (attr data "name")))).
  rewrite !for_each_child_fold. cbv zeta.
  rewrite (fold_add_child "dir" (write_hashlist md5 empty_config)).
  change (fun (st : config) (c : config) =>
            add_child st "file"
              (set_attr (set_attr empty_config "name" (attr c "name"))
                        "hash" (file_hash_raw md5 c)))
    with (fun (st : config) (c : config) =>
            add_child st "file" (hash_entry md5 c)).
  rewrite (fold_add_child "file" (hash_entry md5)). simpl.
  by rewrite <- app_assoc.
Qed.

Lemma write_hashlist_files (data : config) :
  child_range "file" (write_hashlist md5 empty_config data)
  = hash_entry md5 <$> child_range "file" data.
Proof.
  rewrite write_hashlist_eq. unfold child_range at 1. simpl.
  rewrite omap_app, !omap_tagged. simpl. apply app_nil_r.
Qed.

Lemma write_hashlist_dirs (data : config) :
  child_range "dir" (write_hashlist md5 empty_config data)
  = write_hashlist md5 empty_config <$> child_range "dir" data.
Proof.
  rewrite write_hashlist_eq. unfold child_range at 1. simpl.
  rewrite omap_app, !omap_tagged. done.
Qed.

(** C7, amended: at every directory of the input tree, the hash list holds
    one file entry per file, in order, with the file's name and, as its
    hash, the digest of the file's contents: the hash a file carries in
    its own [hash] attribute is not looked at. *)
Theorem write_hashlist_hashes (data : config) (path : list nat) (dir : config) :
  subdir_at path data = Some dir ->
  exists hdir,
    subdir_at path (write_hashlist md5 empty_config data) = Some hdir /\
    hdir = write_hashlist md5 empty_config dir /\
    child_range "file" hdir
    = (fun f => Config (<[ "hash" := md5 (attr f "contents") ]>
                          {[ "name" := attr f "name" ]}) [])
        <$> child_range "file" dir.
Proof.
  revert data. induction path as [|i path IH]; intros data Hsub; simpl in *.
  - injection Hsub as ->. eexists. split; [done|]. split; [done|].
    apply write_hashlist_files.
  - rewrite write_hashlist_dirs, list_lookup_fmap.
    destruct (child_range "dir" data !! i) as [d|]; [|done].
    simpl. by apply IH.
Qed.

End HashingFacts.

(** C2, as the specification states it, fails: with two subdirectories of
    one name, the second is compared with the first, and a file of the
    second that the first lacks makes the tree not contain itself,
    whatever the digest. *)
Lemma contains_hashlist_refl_counterexample :
  contains_hashlist sample_digest twin_dirs twin_dirs = false /\
  ~ (exists md5, contains_hashlist md5 twin_dirs twin_dirs = true).
Proof.
  split; [vm_compute; reflexivity|].
  intros [md5 H]. vm_compute in H. discriminate H.
Qed.

Lemma contains_hashlist_refl_witness :
  contains_hashlist sample_digest twin_files twin_files = true.
Proof.
  apply (contains_hashlist_refl sample_digest twin_files).
  vm_compute. reflexivity.
Defined.

(** C3, as the specification states it, fails on the same tree: both lists
    get an entry for the second subdirectory with the file the first one
    lacks. *)
Lemma make_updatepack_same_tree_counterexample :
  make_updatepack sample_digest empty_config twin_dirs twin_dirs
  = Config ∅
      [ ("removelist",
         Config {[ "name" := "root" ]}
           [("dir", Config {[ "name" := "x" ]}
                      [("file", Config {[ "name" := "b" ]} [])])]);
        ("addlist",
         Config {[ "name" := "root" ]}
           [("dir", Config {[ "name" := "x" ]}
                      [("file", Config (<[ "hash" := "md5:" ]>
                                          (<[ "contents" := "" ]>
                                             {[ "name" := "b" ]})) [])])]) ]
  /\ ~ (exists md5 removelist,
          child_range "removelist"
            (make_updatepack md5 empty_config twin_dirs twin_dirs)
          = [removelist]
          /\ child_range "dir" removelist = [])
  /\ ~ (exists md5 addlist,
          child_range "addlist"
            (make_updatepack md5 empty_config twin_dirs twin_dirs)
          = [addlist]
          /\ child_range "dir" addlist = []).
Proof.
  split; [vm_compute; reflexivity|]. split.
  - intros (md5 & l & H1 & H2). vm_compute in H1. injection H1 as <-.
    vm_compute in H2. discriminate H2.
  - intros (md5 & l & H1 & H2). vm_compute in H1. injection H1 as <-.
    vm_compute in H2. discriminate H2.
Qed.

Lemma make_updatepack_same_tree_witness :
  exists removelist addlist,
    make_updatepack sample_digest empty_config twin_files twin_files
    = Config (values empty_config)
        (children empty_config
         ++ [("removelist", removelist); ("addlist", addlist)])
    /\ removelist = config_kv "name" (attr twin_files "name")
    /\ addlist = config_kv "name" (attr twin_files "name")
    /\ child_range "file" removelist = [] /\ child_range "dir" removelist = []
    /\ child_range "file" addlist = [] /\ child_range "dir" addlist = [].
Proof.
  apply (make_updatepack_same_tree sample_digest empty_config twin_files).
  vm_compute. reflexivity.
Defined.

(** C7, as the specification states it, fails: two files of equal contents
    that carry different hashes get the same hash in the hash list, the
    digest of the contents, so the list cannot hold the hash each file
    carries, whatever the digest. *)
Lemma write_hashlist_hashes_counterexample :
  (fun h => attr h "hash")
    <$> child_range "file" (write_hashlist sample_digest empty_config cached_twins)
  = ["md5:x"; "md5:x"]
  /\ file_hash sample_digest <$> child_range "file" cached_twins = ["p"; "q"]
  /\ ~ (exists md5,
          (fun h => attr h "hash")
            <$> child_range "file"
                  (write_hashlist md5 empty_config cached_twins)
          = file_hash md5 <$> child_range "file" cached_twins).
Proof.
  split; [vm_compute; reflexivity|]. split; [vm_compute; reflexivity|].
  intros [md5 H]. vm_compute in H. congruence.
Qed.

Lemma write_hashlist_hashes_witness :
  exists hdir,
    subdir_at [1] (write_hashlist sample_digest empty_config twin_files)
    = Some hdir /\
    hdir = write_hashlist sample_digest empty_config
             (Config {[ "name" := "y" ]} [("file", config_kv "name" "b")]) /\
    child_range "file" hdir
    = (fun f => Config (<[ "hash" := sample_digest (attr f "contents") ]>
                          {[ "name" := attr f "name" ]}) [])
        <$> child_range "file"
              (Config {[ "name" := "y" ]} [("file", config_kv "name" "b")]).
Proof.
  apply (write_hashlist_hashes sample_digest twin_files [1]).
  reflexivity.
Defined.

End TreeFacts.

(* ===================================================================== *)
(** ** Further properties of the binary codec                             *)
(* ===================================================================== *)

Module CodecMore.
Import Codec CodecFacts.

Lemma encode_ref_app (x y : list byte) :
  encode_ref (x ++ y) = encode_ref x ++ encode_ref y.
Proof. unfold encode_ref. apply flat_map_app. Qed.

Lemma decode_ref_app (a b : list byte) :
  whole_tokens a -> decode_ref (a ++ b) = decode_ref a ++ decode_ref b.
Proof.
  induction 1 as [|c rest Hc _ IH|c rest _ IH].
  - reflexivity.
  - rewrite <- app_comm_cons, !decode_ref_plain by done. by rewrite IH.
  - simpl. by rewrite IH.
Qed.

Lemma escaped_stream_whole (s : list byte) :
  escaped_stream s -> whole_tokens s.
Proof.
  induction 1 as [|c rest Hc _ IH|c rest Hc _ IH].
  - constructor.
  - apply wt_plain; [|done]. intros ->. discriminate Hc.
  - by apply wt_pair.
Qed.

Lemma encode_ref_length (x : list byte) :
  length (encode_ref x)
  = length x + length (filter (fun c => needs_escaping c = true) x).
Proof.
  induction x as [|c x IH]; [done|].
  unfold encode_ref in *. simpl. rewrite length_app, IH.
  unfold escaped. destruct (needs_escaping c) eqn:Hc.
  - rewrite filter_cons_True by done. simpl. lia.
  - rewrite filter_cons_False by congruence. simpl. lia.
Qed.

Lemma encode_ref_decode_ref (s : list byte) :
  escaped_stream s -> encode_ref (decode_ref s) = s.
Proof.
  induction 1 as [|c rest Hc _ IH|c rest Hc _ IH].
  - reflexivity.
  - rewrite decode_ref_plain by (intros ->; discriminate Hc).
    unfold encode_ref in *. simpl. unfold escaped at 1. rewrite Hc.
    simpl. by rewrite IH.
  - change (decode_ref (escape_char :: char_add c 1 :: rest))
      with (char_sub (char_add c 1) 1 :: decode_ref rest).
    rewrite char_sub_add. unfold encode_ref in *. simpl.
    unfold escaped at 1. rewrite Hc. simpl. by rewrite IH.
Qed.

Lemma encode_ref_fixed (x : list byte) :
  encode_ref x = x <-> Forall (fun c => needs_escaping c = false) x.
Proof.
  split; [|apply encode_ref_plain].
  intros Hfix. apply (f_equal length) in Hfix.
  rewrite encode_ref_length in Hfix.
  assert (Hnil : filter (fun c => needs_escaping c = true) x = []).
  { destruct (filter _ x); [done|]. simpl in Hfix. lia. }
  apply Forall_forall. intros c Hc.
  destruct (needs_escaping c) eqn:He; [|done].
  assert (Hin : c ∈ filter (fun c => needs_escaping c = true) x)
    by (by apply list_elem_of_filter).
  rewrite Hnil in Hin. by apply elem_of_nil in Hin.
Qed.

(** X1: the encoding of a concatenation is the concatenation of the
    encodings. *)
Theorem encode_binary_app (x y : list byte) :
  encode_binary (x ++ y) = encode_binary x ++ encode_binary y.
Proof. rewrite !encode_binary_ref. apply encode_ref_app. Qed.

(** X2: decoding splits at any boundary between whole tokens: the decoding
    of [a ++ b] is that of [a] followed by that of [b] when [a] is a run of
    whole tokens; an encoding is such a run, so a stream that starts with
    the encoding of [x] decodes to [x] followed by the decoding of the
    rest. *)
Theorem unencode_binary_app :
  (forall a b : list byte,
      whole_tokens a ->
      unencode_binary (a ++ b) = unencode_binary a ++ unencode_binary b) /\
  (forall x : list byte, whole_tokens (encode_binary x)) /\
  (forall x rest : list byte,
      unencode_binary (encode_binary x ++ rest) = x ++ unencode_binary rest).
Proof.
  repeat apply conj.
  - intros a b Ha. rewrite !unencode_binary_ref. by apply decode_ref_app.
  - intros x. rewrite encode_binary_ref.
    apply escaped_stream_whole, encode_ref_stream.
  - intros x rest. rewrite encode_binary_ref, !unencode_binary_ref.
    apply decode_encode_ref.
Qed.

Lemma unencode_binary_app_witness :
  unencode_binary ([x01; x02; x41] ++ [x01])
  = unencode_binary [x01; x02; x41] ++ unencode_binary [x01].
Proof.
  apply (proj1 unencode_binary_app).
  apply wt_pair, wt_plain; [discriminate|apply wt_nil].
Defined.

(** X3: encoding adds one byte per byte that needs escaping, so the output
    is at least as long as the input and at most twice as long. *)
Theorem encode_binary_length (x : list byte) :
  length (encode_binary x)
  = length x + length (filter (fun c => needs_escaping c = true) x)
  /\ length x <= length (encode_binary x) <= 2 * length x.
Proof.
  rewrite encode_binary_ref, encode_ref_length.
  pose proof (length_filter (fun c => needs_escaping c = true) x). lia.
Qed.

(** X4: [encode_binary] is injective: two byte sequences with the same
    encoding are equal. *)
Theorem encode_binary_inj (x y : list byte) :
  encode_binary x = encode_binary y -> x = y.
Proof.
  intros H. apply (f_equal decode_ref) in H.
  rewrite !encode_binary_ref in H.
  rewrite <- (app_nil_r (encode_ref x)), <- (app_nil_r (encode_ref y)) in H.
  rewrite !decode_encode_ref in H. by rewrite !app_nil_r in H.
Qed.

Lemma encode_binary_inj_witness : [x00; x41] = [x00; x41].
Proof. apply (encode_binary_inj [x00; x41] [x00; x41]). reflexivity. Defined.

(** X5: the sequences [encode_binary] leaves unchanged are exactly those
    with no byte that needs escaping, and encoding twice gives the same as
    encoding once for exactly those sequences: encoding is not idempotent
    on any input that holds 0x00, 0x01, 0x0D or 0xFE. *)
Theorem encode_binary_fixed_points (x : list byte) :
  (encode_binary x = x <-> Forall (fun c => needs_escaping c = false) x) /\
  (encode_binary (encode_binary x) = encode_binary x
   <-> Forall (fun c => needs_escaping c = false) x).
Proof.
  rewrite !encode_binary_ref. split; [apply encode_ref_fixed|].
  rewrite encode_ref_fixed. split.
  - intros Henc. apply Forall_forall. intros c Hc.
    destruct (needs_escaping c) eqn:He; [|done].
    rewrite Forall_forall in Henc.
    assert (Hin : escape_char ∈ encode_ref x).
    { apply list_elem_of_In. unfold encode_ref. apply in_flat_map.
      exists c. split; [by apply list_elem_of_In|].
      unfold escaped. rewrite He. by left. }
    by specialize (Henc _ Hin).
  - intros Hx. by rewrite (encode_ref_plain x Hx).
Qed.

(** X6: the outputs of [encode_binary] are exactly the sequences of tokens
    (an unescaped byte, or the marker and the successor of an escaped
    byte), and on them encoding is the inverse of decoding. *)
Theorem encode_binary_image (s : list byte) :
  (escaped_stream s <-> exists x, encode_binary x = s) /\
  (escaped_stream s -> encode_binary (unencode_binary s) = s).
Proof.
  assert (Hinv : escaped_stream s -> encode_binary (unencode_binary s) = s).
  { intros Hs. rewrite encode_binary_ref, unencode_binary_ref.
    by apply encode_ref_decode_ref. }
  split; [|done]. split.
  - intros Hs. exists (unencode_binary s). by apply Hinv.
  - intros [x <-]. rewrite encode_binary_ref. apply encode_ref_stream.
Qed.

Lemma encode_binary_image_witness :
  encode_binary (unencode_binary [x41; x01; xff]) = [x41; x01; xff].
Proof.
  apply (proj2 (encode_binary_image [x41; x01; xff])).
  apply es_plain; [reflexivity|].
  apply (es_pair xfe []); [reflexivity|apply es_nil].
Defined.

End CodecMore.

(* ===================================================================== *)
(** ** Add-on names and add-on types: properties                          *)
(* ===================================================================== *)

Module NamesMore.
Import Names NamesFacts.

Local Open Scope Z_scope.

(** *** Add-on types *)

Lemma addon_type_names_NoDup : NoDup addon_type_names.
Proof. apply (bool_decide_unpack _). vm_compute. exact I. Qed.

Section AddonTypesFacts.

Variable ADDON_TYPES_COUNT : nat.
Variable ADDON_UNKNOWN : nat.
Hypothesis count_ge : (13 <= ADDON_TYPES_COUNT)%nat.

Lemma addon_type_strings_lookup (i : nat) :
  addon_type_strings ADDON_TYPES_COUNT !! i
  = if (i <? 13)%nat then addon_type_names !! i
    else if (i <? ADDON_TYPES_COUNT)%nat then Some EmptyString else None.
Proof.
  unfold addon_type_strings.
  rewrite resize_ge by (simpl; lia).
  change (length addon_type_names) with 13%nat.
  destruct (Nat.ltb_spec i 13).
  - by rewrite lookup_app_l by (simpl; lia).
  - rewrite lookup_app_r by (simpl; lia).
    change (length addon_type_names) with 13%nat.
    destruct (Nat.ltb_spec i ADDON_TYPES_COUNT).
    + apply lookup_replicate_2. lia.
    + apply lookup_replicate_None. lia.
Qed.

Lemma get_addon_type_loop_found (str : string) (t : nat) :
  forall fuel num : nat,
    (num < t < ADDON_TYPES_COUNT)%nat ->
    (ADDON_TYPES_COUNT - num <= fuel)%nat ->
    addon_type_strings ADDON_TYPES_COUNT !! t = Some str ->
    (forall i, (num < i < t)%nat ->
               addon_type_strings ADDON_TYPES_COUNT !! i <> Some str) ->
    get_addon_type_loop ADDON_TYPES_COUNT ADDON_UNKNOWN str fuel num = Some t.
Proof.
  induction fuel as [|fuel IH]; intros num Ht Hfuel Hstr Hfirst; [lia|].
  cbn [get_addon_type_loop]. cbv zeta.
  destruct (Nat.eqb_spec (S num) ADDON_TYPES_COUNT); [lia|].
  destruct (decide (S num = t)) as [<-|Hne].
  - rewrite Hstr. by rewrite bool_decide_eq_true_2.
  - destruct (addon_type_strings ADDON_TYPES_COUNT !! S num) as [s|] eqn:Hs.
    + rewrite bool_decide_eq_false_2.
      * apply IH; [lia|lia|done|]. intros i Hi. apply Hfirst. lia.
      * intros ->. apply (Hfirst (S num)); [lia|done].
    + rewrite addon_type_strings_lookup in Hs.
      destruct (S num <? 13)%nat eqn:H13.
      * apply Nat.ltb_lt in H13. apply lookup_ge_None in Hs.
        simpl in Hs. lia.
      * destruct (Nat.ltb_spec (S num) ADDON_TYPES_COUNT); [done|lia].
Qed.

Lemma get_addon_type_loop_unknown (str : string) :
  forall fuel num : nat,
    (num < ADDON_TYPES_COUNT)%nat ->
    (ADDON_TYPES_COUNT - num <= fuel)%nat ->
    (forall i, (num < i < ADDON_TYPES_COUNT)%nat ->
               addon_type_strings ADDON_TYPES_COUNT !! i <> Some str) ->
    get_addon_type_loop ADDON_TYPES_COUNT ADDON_UNKNOWN str fuel num
    = Some ADDON_UNKNOWN.
Proof.
  induction fuel as [|fuel IH]; intros num Hnum Hfuel Hnone; [lia|].
  cbn [get_addon_type_loop]. cbv zeta.
  destruct (Nat.eqb_spec (S num) ADDON_TYPES_COUNT); [done|].
  destruct (addon_type_strings ADDON_TYPES_COUNT !! S num) as [s|] eqn:Hs.
  - rewrite bool_decide_eq_false_2.
    + apply IH; [lia|lia|]. intros i Hi. apply Hnone. lia.
    + intros ->. apply (Hnone (S num)); [lia|done].
  - rewrite addon_type_strings_lookup in Hs.
    destruct (S num <? 13)%nat eqn:H13.
    + apply Nat.ltb_lt in H13. apply lookup_ge_None in Hs.
      simpl in Hs. lia.
    + destruct (Nat.ltb_spec (S num) ADDON_TYPES_COUNT); [done|lia].
Qed.

Lemma addon_type_name_nonempty (t : nat) (str : string) :
  addon_type_names !! t = Some str -> str <> EmptyString.
Proof.
  intros Ht ->. apply list_elem_of_lookup_2 in Ht.
  revert Ht. apply (bool_decide_unpack _). vm_compute. exact I.
Qed.

Lemma get_addon_type_found (t : nat) (str : string) :
  (1 <= t < 13)%nat ->
  addon_type_names !! t = Some str ->
  get_addon_type_string ADDON_TYPES_COUNT t = Some str /\
  get_addon_type ADDON_TYPES_COUNT ADDON_UNKNOWN str = Some t.
Proof.
  intros Ht Hstr.
  assert (Hlook : addon_type_strings ADDON_TYPES_COUNT !! t = Some str).
  { rewrite addon_type_strings_lookup.
    by destruct (Nat.ltb_spec t 13); [|lia]. }
  split.
  - unfold get_addon_type_string.
    by destruct (Nat.eqb_spec t ADDON_TYPES_COUNT); [lia|].
  - unfold get_addon_type.
    rewrite bool_decide_eq_false_2 by (by eapply addon_type_name_nonempty).
    apply get_addon_type_loop_found; [lia|lia|done|].
    intros i Hi Hi'. rewrite addon_type_strings_lookup in Hi'.
    destruct (Nat.ltb_spec i 13); [|lia].
    pose proof (NoDup_lookup _ _ _ _ addon_type_names_NoDup Hi' Hstr). lia.
Qed.

Lemma get_addon_type_not_found (str : string) :
  str ∉ drop 1 addon_type_names ->
  get_addon_type ADDON_TYPES_COUNT ADDON_UNKNOWN str = Some ADDON_UNKNOWN.
Proof.
  intros Hstr. unfold get_addon_type. case_bool_decide as Hne; [done|].
  apply get_addon_type_loop_unknown; [lia|lia|].
  intros i Hi Hi'. rewrite addon_type_strings_lookup in Hi'.
  destruct (Nat.ltb_spec i 13).
  - apply Hstr. destruct i as [|i]; [lia|].
    apply list_elem_of_lookup. exists i. by rewrite lookup_drop.
  - destruct (Nat.ltb_spec i ADDON_TYPES_COUNT); [|done]. congruence.
Qed.

(** X7: every add-on type other than the unknown one survives the trip
    through its string: for a type [t] from 1 to 12,
    [get_addon_type_string] gives its name and [get_addon_type] of that
    name gives [t] back. *)
Theorem get_addon_type_round_trip (t : nat) :
  (1 <= t < 13)%nat ->
  exists str,
    addon_type_names !! t = Some str /\
    get_addon_type_string ADDON_TYPES_COUNT t = Some str /\
    get_addon_type ADDON_TYPES_COUNT ADDON_UNKNOWN str = Some t.
Proof.
  intros Ht.
  destruct (lookup_lt_is_Some_2 addon_type_names t) as [str Hstr];
    [simpl; lia|].
  exists str. split; [done|]. by apply get_addon_type_found.
Qed.

(** X8: [get_addon_type] always returns, and what it returns is decided by
    the twelve names after the first of the table: a string that is one of
    them gives the type from 1 to 12 at whose index it stands, the type
    whose string is the one given; every other string (the empty string,
    the name of the unknown type itself, anything else) gives
    [ADDON_UNKNOWN]. *)
Theorem get_addon_type_total (str : string) :
  (exists t, get_addon_type ADDON_TYPES_COUNT ADDON_UNKNOWN str = Some t) /\
  (str ∈ drop 1 addon_type_names ->
   exists t,
     (1 <= t < 13)%nat /\
     addon_type_names !! t = Some str /\
     get_addon_type ADDON_TYPES_COUNT ADDON_UNKNOWN str = Some t /\
     get_addon_type_string ADDON_TYPES_COUNT t = Some str) /\
  (str ∉ drop 1 addon_type_names ->
   get_addon_type ADDON_TYPES_COUNT ADDON_UNKNOWN str = Some ADDON_UNKNOWN).
Proof.
  assert (Hin : str ∈ drop 1 addon_type_names ->
                exists t,
                  (1 <= t < 13)%nat /\
                  addon_type_names !! t = Some str /\
                  get_addon_type ADDON_TYPES_COUNT ADDON_UNKNOWN str = Some t /\
                  get_addon_type_string ADDON_TYPES_COUNT t = Some str).
  { intros [i Hi]%list_elem_of_lookup.
    pose proof (lookup_lt_Some _ _ _ Hi) as Hlt. simpl in Hlt.
    rewrite lookup_drop in Hi.
    destruct (get_addon_type_found (1 + i) str) as [Hs Ht]; [lia|done|].
    exists (1 + i)%nat. repeat apply conj; [lia|lia|done|done|done]. }
  repeat apply conj; [|exact Hin|apply get_addon_type_not_found].
  destruct (decide (str ∈ drop 1 addon_type_names)) as [H|H].
  - destruct (Hin H) as (t & _ & _ & Ht & _). by exists t.
  - exists ADDON_UNKNOWN. by apply get_addon_type_not_found.
Qed.

End AddonTypesFacts.

Lemma get_addon_type_round_trip_witness :
  exists str,
    addon_type_names !! 11%nat = Some str /\
    get_addon_type_string 13 11 = Some str /\
    get_addon_type 13 0 str = Some 11%nat.
Proof.
  apply (get_addon_type_round_trip 13 0); lia.
Defined.

Lemma get_addon_type_total_witness :
  (exists t,
     (1 <= t < 13)%nat /\
     addon_type_names !! t = Some "core" /\
     get_addon_type 13 0 "core" = Some t /\
     get_addon_type_string 13 t = Some "core") /\
  get_addon_type 13 0 "unknown" = Some 0%nat.
Proof.
  split.
  - apply (proj1 (proj2 (get_addon_type_total 13 0 ltac:(lia) "core"))).
    apply (bool_decide_unpack _). vm_compute. exact I.
  - apply (proj2 (proj2 (get_addon_type_total 13 0 ltac:(lia) "unknown"))).
    apply (bool_decide_unpack _). vm_compute. exact I.
Defined.

(** *** Add-on names *)

(** What the C-locale name test lets through is an ASCII character that is
    no dot and that the file name test lets through as well. *)
Lemma name_char_plain (c : ascii) :
  addon_name_char_illegal isalnum_c c = false ->
  c <> "."%char /\
  (Z.of_N (N_of_ascii c) <? 0x80) = true /\
  addon_filename_ucs4char_illegal (Z.of_N (N_of_ascii c)) = false.
Proof.
  destruct c as [[] [] [] [] [] [] [] []]; intros H;
    try discriminate H; repeat split; discriminate.
Qed.

Lemma name_char_weaken (isalnum : ascii -> bool) (c : ascii) :
  (forall a, isalnum a = true -> isalnum_c a = true) ->
  addon_name_char_illegal isalnum c = false ->
  addon_name_char_illegal isalnum_c c = false.
Proof.
  intros Hal H.
  destruct (isalnum c) eqn:Hc.
  - apply Hal in Hc. unfold addon_name_char_illegal.
    rewrite Hc. simpl.
    by destruct c as [[] [] [] [] [] [] [] []].
  - destruct c as [[] [] [] [] [] [] [] []]; try reflexivity;
      simpl in H; rewrite Hc in H; discriminate H.
Qed.

Lemma find_char_absent (c : ascii) (s : string) :
  c ∉ String.list_ascii_of_string s -> find_char c s = None.
Proof.
  induction s as [|a s IH]; [done|].
  simpl. intros [Ha Hs]%not_elem_of_cons.
  destruct (Ascii.eqb_spec a c); [congruence|]. by rewrite IH.
Qed.

Lemma find_dotdot_absent (s : string) :
  "."%char ∉ String.list_ascii_of_string s -> find ".." s = None.
Proof.
  induction s as [|a s IH]; [done|].
  intros [Ha Hs]%not_elem_of_cons. rewrite find_unfold.
  change (String.prefix ".." (String a s))
    with (if ascii_dec "." a then String.prefix "." s else false).
  destruct (ascii_dec "." a); [congruence|]. by rewrite IH.
Qed.

Lemma back_elem (s : string) (c : ascii) :
  back s = Some c -> c ∈ String.list_ascii_of_string s.
Proof.
  induction s as [|a s IH]; [done|].
  simpl. destruct s as [|b s].
  - intros [= ->]. by left.
  - intros H. right. by apply IH.
Qed.

Lemma is_ascii_Forall (s : string) :
  Forall (fun c => (Z.of_N (N_of_ascii c) <? 0x80) = true)
         (String.list_ascii_of_string s) ->
  is_ascii s = true.
Proof.
  induction s as [|a s IH]; [done|].
  simpl. intros [Ha Hs]%Forall_cons.
  rewrite is_ascii_cons, Ha. by apply IH.
Qed.

Lemma find_illegal_None (s : string) :
  Forall (fun c => addon_filename_ucs4char_illegal (Z.of_N (N_of_ascii c))
                   = false)
         (String.list_ascii_of_string s) ->
  List.find addon_filename_ucs4char_illegal (byte_codes s) = None.
Proof.
  unfold byte_codes. induction s as [|a s IH]; [done|].
  simpl. intros [Ha Hs]%Forall_cons. rewrite Ha. by apply IH.
Qed.

Section AddonNameFacts.

Variable isalnum : ascii -> bool.
Variable utf8_to_ucs4 : string -> list Z.
Variable ucs4_to_utf8 : list Z -> string.

Lemma addon_name_legal_chars (name : string) :
  addon_name_legal isalnum name = true <->
  name <> EmptyString /\
  Forall (fun c => addon_name_char_illegal isalnum c = false)
         (String.list_ascii_of_string name).
Proof.
  unfold addon_name_legal.
  destruct (bool_decide (name = EmptyString)) eqn:Hn; simpl.
  - apply bool_decide_eq_true in Hn. split; [done|]. by intros [].
  - apply bool_decide_eq_false in Hn.
    case_bool_decide as Hf.
    + split; [done|]. intros [_ Hall]. exfalso.
      destruct (List.find _ _) as [c|] eqn:Hc; [|done].
      apply find_some in Hc as [Hin Hc].
      rewrite Forall_forall in Hall. apply list_elem_of_In in Hin.
      specialize (Hall c Hin). congruence.
    + split; [|done]. intros _. split; [done|].
      apply Forall_forall. intros c Hin.
      destruct (addon_name_char_illegal isalnum c) eqn:Hc; [|done].
      apply list_elem_of_In in Hin.
      pose proof (find_none _ _ Hf c Hin). congruence.
Qed.

(** X9: a legal add-on name is a legal file name unless it is longer than
    255 bytes or is, once upper-cased, a reserved device name; this for an
    [isalnum] that accepts ASCII digits and letters only and a UTF-8
    conversion that leaves ASCII strings as they are. *)
Theorem addon_name_legal_filename_legal
    (Halnum : forall a, isalnum a = true -> isalnum_c a = true)
    (Hascii : forall s, is_ascii s = true ->
         utf8_to_ucs4 s = byte_codes s /\ ucs4_to_utf8 (byte_codes s) = s)
    (name : string) :
  addon_name_legal isalnum name = true ->
  (String.length name <= 255)%nat ->
  to_upper_copy name ∉ dos_device_names ->
  addon_filename_legal utf8_to_ucs4 ucs4_to_utf8 name = true.
Proof.
  intros [Hne Hall]%addon_name_legal_chars Hlen Hdev.
  assert (Hplain : Forall (fun c =>
             c <> "."%char /\
             (Z.of_N (N_of_ascii c) <? 0x80) = true /\
             addon_filename_ucs4char_illegal (Z.of_N (N_of_ascii c)) = false)
            (String.list_ascii_of_string name)).
  { eapply Forall_impl; [exact Hall|]. intros c Hc. simpl in Hc.
    by apply name_char_plain, (name_char_weaken isalnum). }
  assert (Hdot : "."%char ∉ String.list_ascii_of_string name).
  { intros Hin. rewrite Forall_forall in Hplain.
    by destruct (Hplain _ Hin). }
  assert (His : is_ascii name = true).
  { apply is_ascii_Forall. eapply Forall_impl; [exact Hplain|].
    by intros c (_ & ? & _). }
  destruct (Hascii name His) as [Hdec Henc].
  unfold addon_filename_legal.
  rewrite (bool_decide_eq_false_2 (name = EmptyString)) by done.
  rewrite (bool_decide_eq_false_2 (back name = Some "."%char)).
  2:{ intros Hb. apply Hdot. by apply back_elem. }
  rewrite find_dotdot_absent by done.
  rewrite (bool_decide_eq_false_2 (None <> None)) by (by intros []).
  replace (255 <? String.length name)%nat with false
    by (symmetry; apply Nat.ltb_ge; lia).
  simpl. rewrite find_char_absent by done. simpl.
  rewrite (bool_decide_eq_false_2 (_ ∈ dos_device_names)) by done.
  rewrite Hdec, Henc.
  rewrite (bool_decide_eq_false_2 (name <> name)) by (by intros []).
  rewrite find_illegal_None; [done|].
  eapply Forall_impl; [exact Hplain|]. by intros c (_ & _ & ?).
Qed.

End AddonNameFacts.

Lemma addon_name_legal_filename_legal_witness :
  addon_filename_legal utf8_to_ucs4_model ucs4_to_utf8_model "My_Addon-2"
  = true.
Proof.
  apply (addon_name_legal_filename_legal
           isalnum_c utf8_to_ucs4_model ucs4_to_utf8_model
           (fun a H => H) model_ascii "My_Addon-2").
  - reflexivity.
  - vm_compute. lia.
  - intros H. revert H. apply (bool_decide_unpack _). vm_compute. exact I.
Defined.

End NamesMore.

(* ===================================================================== *)
(** ** Further properties of the tree functions                           *)
(* ===================================================================== *)

Module TreeMore.
Import Names NamesFacts Tree TreeFacts.

(** *** Helpers on lists and loops *)

Lemma fold_left_andb {A : Type} (P : A -> bool) (l : list A) (b : bool) :
  fold_left (fun st c => st && P c) l b = b && forallb P l.
Proof.
  revert b. induction l as [|c l IH]; intros b; simpl.
  - by rewrite andb_true_r.
  - by rewrite IH, andb_assoc.
Qed.

Lemma filter_is_nil {A : Type} (P : A -> Prop) `{!forall x, Decision (P x)}
    (l : list A) :
  filter P l = [] <-> forall x, x ∈ l -> ~ P x.
Proof.
  split; [|apply filter_none].
  intros Hnil x Hx HP. eapply filter_nil_not_elem_of; eauto.
Qed.

Lemma child_range_cons_app (tag : string) (vs vs' : gmap string string)
    (cs1 cs2 : list (string * config)) :
  child_range tag (Config vs (cs1 ++ cs2))
  = child_range tag (Config vs' cs1) ++ child_range tag (Config vs' cs2).
Proof. unfold child_range. simpl. apply omap_app. Qed.

Lemma child_range_tagged (tag tag' : string) (vs : gmap string string)
    {A : Type} (mk : A -> config) (l : list A) :
  child_range tag (Config vs ((fun a => (tag', mk a)) <$> l))
  = if bool_decide (tag' = tag) then mk <$> l else [].
Proof.
  unfold child_range. simpl.
  destruct (bool_decide (tag' = tag)) eqn:Ht;
    induction l as [|a l IH]; simpl; rewrite ?Ht; simpl;
    first [done | f_equal; exact IH | exact IH].
Qed.

Lemma no_empty_dirs_eq (cfg : config) :
  no_empty_dirs cfg
  = forallb (fun d => match children d with [] => false | _ :: _ => true end
                      && no_empty_dirs d)
            (child_range "dir" cfg).
Proof.
  destruct cfg as [vs cs]. set (cfg := Config vs cs).
  change (no_empty_dirs cfg) with
    (for_each_child "dir"
       (fun d ok =>
          ok && match children d with [] => false | _ :: _ => true end
             && no_empty_dirs d)
       (children cfg) true).
  rewrite for_each_child_fold.
  rewrite (fold_left_pointwise _
             (fun st d => st && (match children d with
                                 | [] => false | _ :: _ => true end
                                 && no_empty_dirs d)))
    by (intros st d; by rewrite andb_assoc).
  by rewrite fold_left_andb.
Qed.

Lemma all_files_eq (ok : config -> bool) (cfg : config) :
  all_files ok cfg
  = forallb ok (child_range "file" cfg)
    && forallb (all_files ok) (child_range "dir" cfg).
Proof.
  destruct cfg as [vs cs]. set (cfg := Config vs cs).
  change (all_files ok cfg) with
    (forallb ok (child_range "file" cfg)
     && for_each_child "dir" (fun d acc => acc && all_files ok d)
          (children cfg) true).
  by rewrite for_each_child_fold, fold_left_andb.
Qed.

Section DiffMore.

Variable md5 : string -> string.

Lemma write_difference_dirs (pack from to : config) (with_content : bool) :
  child_range "dir" (write_difference md5 pack from to with_content).1
  = child_range "dir" pack
    ++ ((fun d => (write_difference md5 empty_config (origin_dir from d) d
                     with_content).1)
          <$> filter (fun d => (write_difference md5 empty_config
                                  (origin_dir from d) d with_content).2 = true)
                     (child_range "dir" to)).
Proof.
  rewrite write_difference_eq. cbv zeta. simpl.
  rewrite !(child_range_cons_app "dir" _ (values pack)).
  rewrite (child_range_tagged "dir" "file"), (child_range_tagged "dir" "dir").
  simpl. by destruct pack.
Qed.

Lemma write_difference_files (pack from to : config) (with_content : bool) :
  child_range "file" (write_difference md5 pack from to with_content).1
  = child_range "file" pack
    ++ (diff_file md5 with_content
          <$> filter (fun f => ~ Exists (same_file md5 f)
                                        (child_range "file" from))
                     (child_range "file" to)).
Proof.
  rewrite write_difference_eq. cbv zeta. simpl.
  rewrite !(child_range_cons_app "file" _ (values pack)).
  rewrite (child_range_tagged "file" "file"), (child_range_tagged "file" "dir").
  simpl. rewrite app_nil_r. by destruct pack.
Qed.

Lemma write_difference_flag_children (pack from to : config)
    (with_content : bool) :
  (write_difference md5 pack from to with_content).2 = true ->
  length (children pack)
  < length (children (write_difference md5 pack from to with_content).1).
Proof.
  rewrite write_difference_eq. cbv zeta. simpl.
  intros [H|H]%bool_decide_eq_true; rewrite !length_app, !length_fmap;
    destruct (filter _ _); try done; simpl; lia.
Qed.

(** The flag of [write_difference] says whether [from] fails to contain
    [to]. *)
Lemma write_difference_flag (to : config) :
  forall (pack from : config) (with_content : bool),
    (write_difference md5 pack from to with_content).2
    = negb (contains_hashlist md5 from to).
Proof.
  induction to as [vs cs IH] using config_ind. set (to := Config vs cs) in *.
  intros pack from with_content.
  rewrite write_difference_eq, contains_hashlist_eq. cbv zeta. simpl.
  pose proof (child_range_Forall
                (fun d => forall pack from with_content,
                     (write_difference md5 pack from d with_content).2
                     = negb (contains_hashlist md5 from d))
                "dir" to IH) as Hdirs.
  rewrite Forall_forall in Hdirs.
  destruct (forallb (fun f => existsb (comp_file_hash md5 f)
                                      (child_range "file" from))
                    (child_range "file" to)) eqn:Hfiles.
  - rewrite forallb_forall in Hfiles.
    rewrite (filter_none (fun f => ~ Exists _ _)).
    2:{ intros f Hf Hno. apply Hno. apply Exists_exists.
        apply list_elem_of_In, Hfiles, existsb_exists in Hf
          as (d & Hd & Hcomp).
        exists d. split; [by apply list_elem_of_In|].
        by apply comp_file_hash_spec. }
    destruct (forallb (fun d => contains_hashlist md5 (origin_dir from d) d)
                      (child_range "dir" to)) eqn:Hsub; simpl.
    + rewrite forallb_forall in Hsub.
      rewrite (filter_none (fun d => _ = true)).
      2:{ intros d Hd. rewrite Hdirs by done.
          rewrite Hsub by (by apply list_elem_of_In). done. }
      apply bool_decide_eq_false. tauto.
    + apply bool_decide_eq_true. right. intros Hnil.
      rewrite filter_is_nil in Hnil.
      apply not_true_iff_false in Hsub. apply Hsub.
      apply forallb_forall. intros d Hd. apply list_elem_of_In in Hd.
      specialize (Hnil d Hd). rewrite Hdirs in Hnil by done.
      by destruct (contains_hashlist md5 (origin_dir from d) d).
  - simpl. apply bool_decide_eq_true. left. intros Hnil.
    rewrite filter_is_nil in Hnil.
    apply not_true_iff_false in Hfiles. apply Hfiles.
    apply forallb_forall. intros f Hf. apply list_elem_of_In in Hf.
    specialize (Hnil f Hf).
    destruct (existsb (comp_file_hash md5 f) (child_range "file" from))
      eqn:Hex; [done|].
    exfalso. apply Hnil. intros Hsome. apply Exists_exists in Hsome
      as (d & Hd & Hs).
    apply not_true_iff_false in Hex. apply Hex. apply existsb_exists.
    exists d. split; [by apply list_elem_of_In|by apply comp_file_hash_spec].
Qed.

(** X10: [write_difference] reports changes exactly when [from] does not
    contain [to] in the sense of [contains_hashlist], whatever the pack it
    writes to and with or without content. *)
Theorem write_difference_changes_iff_not_contained
    (pack from to : config) (with_content : bool) :
  (write_difference md5 pack from to with_content).2
  = negb (contains_hashlist md5 from to).
Proof. apply write_difference_flag. Qed.

(** X11: [make_updatepack] keeps the attributes and children of [pack] and
    appends a remove list named after [from] and an add list named after
    [to]; the add list is empty (no children) exactly when [from] contains
    [to], and the remove list exactly when [to] contains [from]. *)
Theorem make_updatepack_shape (pack from to : config) :
  exists removelist addlist,
    make_updatepack md5 pack from to
    = Config (values pack)
        (children pack ++ [("removelist", removelist); ("addlist", addlist)])
    /\ attr removelist "name" = attr from "name"
    /\ attr addlist "name" = attr to "name"
    /\ (children removelist = [] <-> contains_hashlist md5 to from = true)
    /\ (children addlist = [] <-> contains_hashlist md5 from to = true).
Proof.
  exists (write_difference md5 empty_config to from false).1,
         (write_difference md5 empty_config from to true).1.
  split.
  { unfold make_updatepack, add_child. simpl. by rewrite <- app_assoc. }
  assert (Hshape : forall a b wc,
             attr (write_difference md5 empty_config a b wc).1 "name"
             = attr b "name"
             /\ (children (write_difference md5 empty_config a b wc).1 = []
                 <-> contains_hashlist md5 a b = true)).
  { intros a b wc. split.
    - rewrite write_difference_eq. cbv zeta. unfold attr. simpl.
      by rewrite lookup_insert_eq.
    - pose proof (write_difference_flag b empty_config a wc) as Hflag.
      pose proof (write_difference_flag_children empty_config a b wc) as Hlen.
      split.
      + intros Hnil. rewrite Hnil in Hlen. simpl in Hlen.
        destruct (contains_hashlist md5 a b); [done|].
        simpl in Hflag. specialize (Hlen Hflag). lia.
      + intros Hc. rewrite Hc in Hflag. simpl in Hflag. clear Hlen.
        rewrite write_difference_eq in Hflag |- *. cbv zeta in *.
        simpl in *. apply bool_decide_eq_false in Hflag.
        destruct (filter (fun f => ~ Exists _ _) _);
          [|exfalso; apply Hflag; by left].
        destruct (filter (fun d => _ = true) _);
          [done|exfalso; apply Hflag; by right]. }
  destruct (Hshape to from false) as [? ?].
  destruct (Hshape from to true) as [? ?]. done.
Qed.

(** X12: a difference has no empty directory entries: a pack that has none
    still has none, at any depth, after [write_difference] wrote into
    it. *)
Theorem write_difference_no_empty_dirs (to : config) :
  forall (pack from : config) (with_content : bool),
    no_empty_dirs pack = true ->
    no_empty_dirs (write_difference md5 pack from to with_content).1 = true.
Proof.
  induction to as [vs cs IH] using config_ind. set (to := Config vs cs) in *.
  intros pack from with_content Hpack.
  rewrite no_empty_dirs_eq, write_difference_dirs, forallb_app.
  rewrite no_empty_dirs_eq in Hpack. rewrite Hpack. simpl.
  apply forallb_forall. intros e He. apply list_elem_of_In in He.
  apply list_elem_of_fmap in He as (d & -> & Hd).
  apply list_elem_of_filter in Hd as [Hflag Hd].
  pose proof (child_range_Forall
                (fun d => forall pack from with_content,
                     no_empty_dirs pack = true ->
                     no_empty_dirs
                       (write_difference md5 pack from d with_content).1
                     = true)
                "dir" to IH) as Hdirs.
  rewrite Forall_forall in Hdirs.
  rewrite (Hdirs d Hd) by done. rewrite andb_true_r.
  pose proof (write_difference_flag_children _ _ _ _ Hflag) as Hlen.
  simpl in Hlen.
  destruct (children (write_difference md5 empty_config (origin_dir from d) d
                        with_content).1); [simpl in Hlen; lia|done].
Qed.

End DiffMore.

Lemma write_difference_no_empty_dirs_witness :
  no_empty_dirs
    (write_difference sample_digest empty_config twin_dirs twin_files true).1
  = true.
Proof.
  apply (write_difference_no_empty_dirs sample_digest twin_files).
  reflexivity.
Defined.


(** *** Containment *)

Lemma find_app_first {A : Type} (p : A -> bool) (l1 l2 : list A) :
  List.find p (l1 ++ l2)
  = match List.find p l1 with
    | Some x => Some x
    | None => List.find p l2
    end.
Proof.
  induction l1 as [|a l1 IH]; [done|]. simpl. by destruct (p a).
Qed.

Lemma find_fmap_list {A B : Type} (p : B -> bool) (f : A -> B) (l : list A) :
  List.find p (f <$> l) = f <$> List.find (fun a => p (f a)) l.
Proof.
  induction l as [|a l IH]; [done|]. simpl. by destruct (p (f a)).
Qed.

Lemma origin_dir_cases (from d : config) :
  (exists o, o ∈ child_range "dir" from /\ attr o "name" = attr d "name" /\
             find_child from "dir" "name" (attr d "name") = Some o /\
             origin_dir from d = o)
  \/ (find_child from "dir" "name" (attr d "name") = None /\
      origin_dir from d = config_kv "name" (attr d "name")).
Proof.
  unfold origin_dir.
  destruct (find_child from "dir" "name" (attr d "name")) as [o|] eqn:Hf.
  - left. exists o. unfold find_child in Hf.
    apply find_some in Hf as [Hin Hname].
    apply bool_decide_eq_true in Hname.
    repeat split; try done. by apply list_elem_of_In.
  - by right.
Qed.

Lemma origin_dir_same_name (from d d' : config) :
  attr d "name" = attr d' "name" -> origin_dir from d = origin_dir from d'.
Proof. unfold origin_dir. by intros ->. Qed.

Section ContainsMore.

Variable md5 : string -> string.

Lemma comp_file_hash_trans (f g h : config) :
  comp_file_hash md5 f g = true -> comp_file_hash md5 g h = true ->
  comp_file_hash md5 f h = true.
Proof.
  rewrite !comp_file_hash_spec. unfold same_file.
  intros [-> ->] [-> ->]. done.
Qed.

(** A directory without files and subdirectories is contained in every
    directory, and what it contains every directory contains. *)
Lemma contains_hashlist_bottom (d : config) :
  forall e : config,
    child_range "file" e = [] -> child_range "dir" e = [] ->
    contains_hashlist md5 e d = true ->
    forall X, contains_hashlist md5 X d = true.
Proof.
  induction d as [vs cs IH] using config_ind. set (d := Config vs cs) in *.
  intros e Hef Hed He X. rewrite contains_hashlist_eq in He |- *.
  apply andb_true_iff in He as [Hfiles Hdirs]. rewrite Hef in Hfiles.
  assert (Hnofiles : child_range "file" d = []).
  { destruct (child_range "file" d); [done|]. discriminate Hfiles. }
  rewrite Hnofiles. simpl.
  apply forallb_forall. intros d' Hd'. apply list_elem_of_In in Hd'.
  rewrite forallb_forall in Hdirs.
  specialize (Hdirs d' (proj1 (list_elem_of_In _ _) Hd')).
  pose proof (child_range_Forall
                (fun d => forall e, child_range "file" e = [] ->
                                    child_range "dir" e = [] ->
                                    contains_hashlist md5 e d = true ->
                                    forall X, contains_hashlist md5 X d = true)
                "dir" d IH) as Hall.
  rewrite Forall_forall in Hall.
  assert (Hdummy : origin_dir e d' = config_kv "name" (attr d' "name")).
  { destruct (origin_dir_cases e d') as [(o & Ho & _)|[_ ->]]; [|done].
    rewrite Hed in Ho. by apply elem_of_nil in Ho. }
  rewrite Hdummy in Hdirs.
  by apply (Hall d' Hd' (config_kv "name" (attr d' "name"))).
Qed.

(** X13: containment is transitive: if [A] contains [B] and [B] contains
    [C] then [A] contains [C]. *)
Theorem contains_hashlist_trans (C : config) :
  forall A B : config,
    contains_hashlist md5 A B = true ->
    contains_hashlist md5 B C = true ->
    contains_hashlist md5 A C = true.
Proof.
  induction C as [vs cs IH] using config_ind. set (C := Config vs cs) in *.
  intros A B HAB HBC.
  pose proof HAB as HAB'. rewrite contains_hashlist_eq in HAB'.
  rewrite contains_hashlist_eq in HBC |- *.
  apply andb_true_iff in HAB' as [HABf HABd].
  apply andb_true_iff in HBC as [HBCf HBCd].
  rewrite forallb_forall in HABf, HABd, HBCf, HBCd.
  apply andb_true_iff. split; apply forallb_forall.
  - intros f Hf.
    apply HBCf, existsb_exists in Hf as (g & Hg & Hfg).
    pose proof (HABf g Hg) as Hg'.
    apply existsb_exists in Hg' as (h & Hh & Hgh).
    apply existsb_exists. exists h. split; [done|].
    by eapply comp_file_hash_trans.
  - intros d Hd. pose proof (HBCd d Hd) as HBd.
    apply list_elem_of_In in Hd.
    pose proof (child_range_Forall
                  (fun d => forall A B,
                       contains_hashlist md5 A B = true ->
                       contains_hashlist md5 B d = true ->
                       contains_hashlist md5 A d = true)
                  "dir" C IH) as Hall.
    rewrite Forall_forall in Hall.
    destruct (origin_dir_cases B d) as [(o & Ho & Hname & _ & Heq)|[_ Heq]];
      rewrite Heq in HBd.
    + apply (Hall d Hd _ o); [|done].
      rewrite <- (origin_dir_same_name A o d Hname).
      apply HABd. by apply list_elem_of_In.
    + by eapply (contains_hashlist_bottom d (config_kv "name" (attr d "name"))).
Qed.

(** X14: what a directory contains it still contains after a child is
    added to it: extra files and extra subdirectories never break
    containment. *)
Theorem contains_hashlist_add_child
    (from to : config) (tag : string) (c : config) :
  contains_hashlist md5 from to = true ->
  contains_hashlist md5 (add_child from tag c) to = true.
Proof.
  rewrite !contains_hashlist_eq.
  intros [Hf Hd]%andb_true_iff. rewrite forallb_forall in Hf, Hd.
  assert (Hrange : forall t,
             child_range t (add_child from tag c)
             = child_range t from
               ++ (if bool_decide (tag = t) then [c] else [])).
  { intros t. unfold add_child.
    rewrite (child_range_cons_app t _ (values from)).
    destruct from as [fv fc]. unfold child_range. simpl.
    by case_bool_decide. }
  apply andb_true_iff. split; apply forallb_forall.
  - intros f Hin. rewrite Hrange, existsb_app, (Hf f Hin). done.
  - intros d Hin. specialize (Hd d Hin).
    destruct (find_child from "dir" "name" (attr d "name")) as [o|] eqn:Hfind.
    + assert (Heq : origin_dir (add_child from tag c) d = origin_dir from d).
      { unfold origin_dir, find_child in *.
        by rewrite Hrange, find_app_first, Hfind. }
      by rewrite Heq.
    + unfold origin_dir in Hd. rewrite Hfind in Hd. simpl in Hd.
      by eapply (contains_hashlist_bottom d (config_kv "name" (attr d "name"))).
Qed.

End ContainsMore.

Lemma contains_hashlist_trans_witness :
  contains_hashlist sample_digest twin_files
    (Config {[ "name" := "root" ]} [("dir", Config {[ "name" := "x" ]} [])])
  = true.
Proof.
  apply (contains_hashlist_trans sample_digest _ twin_files
           (Config {[ "name" := "root" ]}
              [("dir", Config {[ "name" := "x" ]}
                         [("file", config_kv "name" "a")])]));
    reflexivity.
Defined.

Lemma contains_hashlist_add_child_witness :
  contains_hashlist sample_digest
    (add_child twin_files "dir" (Config {[ "name" := "z" ]} []))
    (Config {[ "name" := "root" ]}
       [("file", Config (<[ "contents" := "2" ]> {[ "name" := "a" ]}) []);
        ("dir", Config {[ "name" := "z" ]} [])])
  = true.
Proof.
  apply (contains_hashlist_add_child sample_digest twin_files).
  reflexivity.
Defined.

(** *** Hash lists in place of trees *)

Lemma existsb_pointwise_in {A : Type} (p q : A -> bool) (l : list A) :
  (forall x, x ∈ l -> p x = q x) -> existsb p l = existsb q l.
Proof.
  induction l as [|a l IH]; intros H; [done|].
  simpl. rewrite (H a) by left. rewrite IH; [done|].
  intros x Hx. apply H. by right.
Qed.

Lemma forallb_pointwise_in {A : Type} (p q : A -> bool) (l : list A) :
  (forall x, x ∈ l -> p x = q x) -> forallb p l = forallb q l.
Proof.
  induction l as [|a l IH]; intros H; [done|].
  simpl. rewrite (H a) by left. rewrite IH; [done|].
  intros x Hx. apply H. by right.
Qed.

Lemma existsb_fmap_list {A B : Type} (p : B -> bool) (f : A -> B)
    (l : list A) :
  existsb p (f <$> l) = existsb (fun a => p (f a)) l.
Proof. induction l as [|a l IH]; [done|]. simpl. f_equal. exact IH. Qed.

Lemma forallb_fmap_list {A B : Type} (p : B -> bool) (f : A -> B)
    (l : list A) :
  forallb p (f <$> l) = forallb (fun a => p (f a)) l.
Proof. induction l as [|a l IH]; [done|]. simpl. f_equal. exact IH. Qed.

Lemma find_pointwise {A : Type} (p q : A -> bool) (l : list A) :
  (forall x, p x = q x) -> List.find p l = List.find q l.
Proof.
  intros H. induction l as [|a l IH]; [done|]. simpl. by rewrite H, IH.
Qed.

Section HashlistMore.

Variable md5 : string -> string.
Hypothesis md5_nonempty : forall s, md5 s <> EmptyString.

Local Abbreviation hash_consistent := (hash_consistent md5).

Lemma write_hashlist_name (d : config) :
  attr (write_hashlist md5 empty_config d) "name" = attr d "name".
Proof.
  rewrite write_hashlist_eq. unfold attr. simpl.
  by rewrite lookup_insert_eq.
Qed.

Lemma hash_entry_name (f : config) :
  attr (hash_entry md5 f) "name" = attr f "name".
Proof.
  unfold hash_entry, attr. simpl.
  rewrite lookup_insert_ne by done. by rewrite lookup_singleton_eq.
Qed.

Lemma hash_entry_hash (f : config) :
  file_hash md5 (hash_entry md5 f) = file_hash_raw md5 f.
Proof.
  unfold file_hash, hash_entry, file_hash_raw, attr. simpl.
  rewrite lookup_insert_eq. simpl.
  by rewrite bool_decide_eq_false_2 by apply md5_nonempty.
Qed.

Lemma comp_hash_entry_r (f d : config) :
  hash_consistent d = true ->
  comp_file_hash md5 f (hash_entry md5 d) = comp_file_hash md5 f d.
Proof.
  intros Hd%bool_decide_eq_true. unfold comp_file_hash.
  by rewrite hash_entry_name, hash_entry_hash, Hd.
Qed.

Lemma comp_hash_entry_l (f d : config) :
  hash_consistent f = true ->
  comp_file_hash md5 (hash_entry md5 f) d = comp_file_hash md5 f d.
Proof.
  intros Hf%bool_decide_eq_true. unfold comp_file_hash.
  by rewrite hash_entry_name, hash_entry_hash, Hf.
Qed.

Lemma origin_dir_hashlist (from d : config) :
  origin_dir (write_hashlist md5 empty_config from) d
  = match find_child from "dir" "name" (attr d "name") with
    | Some o => write_hashlist md5 empty_config o
    | None => config_kv "name" (attr d "name")
    end.
Proof.
  unfold origin_dir, find_child. rewrite write_hashlist_dirs.
  rewrite find_fmap_list.
  rewrite (find_pointwise _
             (fun c => bool_decide (attr c "name" = attr d "name")))
    by (intros c; by rewrite write_hashlist_name).
  by destruct (List.find _ _).
Qed.

Lemma contains_hashlist_of_from (to : config) :
  forall from : config,
    all_files hash_consistent from = true ->
    contains_hashlist md5 (write_hashlist md5 empty_config from) to
    = contains_hashlist md5 from to.
Proof.
  induction to as [vs cs IH] using config_ind. set (to := Config vs cs) in *.
  intros from Hfrom. rewrite all_files_eq in Hfrom.
  apply andb_true_iff in Hfrom as [Hff Hfd].
  rewrite forallb_forall in Hff, Hfd.
  rewrite !contains_hashlist_eq, write_hashlist_files. f_equal.
  - apply forallb_pointwise. intros f. rewrite existsb_fmap_list.
    apply existsb_pointwise_in. intros d Hd. apply comp_hash_entry_r.
    apply Hff. by apply list_elem_of_In.
  - apply forallb_pointwise_in. intros d Hd.
    pose proof (child_range_Forall
                  (fun d => forall from,
                       all_files hash_consistent from = true ->
                       contains_hashlist md5
                         (write_hashlist md5 empty_config from) d
                       = contains_hashlist md5 from d)
                  "dir" to IH) as Hall.
    rewrite Forall_forall in Hall.
    rewrite origin_dir_hashlist. unfold origin_dir.
    destruct (find_child from "dir" "name" (attr d "name")) as [o|] eqn:Ho;
      [|done].
    simpl. apply Hall; [done|]. apply Hfd.
    unfold find_child in Ho. by apply find_some in Ho as [Ho _].
Qed.

Lemma contains_hashlist_of_to (to : config) :
  forall from : config,
    all_files hash_consistent to = true ->
    contains_hashlist md5 from (write_hashlist md5 empty_config to)
    = contains_hashlist md5 from to.
Proof.
  induction to as [vs cs IH] using config_ind. set (to := Config vs cs) in *.
  intros from Hto. rewrite all_files_eq in Hto.
  apply andb_true_iff in Hto as [Htf Htd].
  rewrite forallb_forall in Htf, Htd.
  rewrite !contains_hashlist_eq, write_hashlist_files, write_hashlist_dirs.
  rewrite !forallb_fmap_list. f_equal.
  - apply forallb_pointwise_in. intros f Hf.
    apply existsb_pointwise_in. intros d Hd. apply comp_hash_entry_l.
    apply Htf. by apply list_elem_of_In.
  - apply forallb_pointwise_in. intros d Hd.
    pose proof (child_range_Forall
                  (fun d => forall from,
                       all_files hash_consistent d = true ->
                       contains_hashlist md5 from
                         (write_hashlist md5 empty_config d)
                       = contains_hashlist md5 from d)
                  "dir" to IH) as Hall.
    rewrite Forall_forall in Hall.
    rewrite (origin_dir_same_name from _ d) by apply write_hashlist_name.
    apply Hall; [done|]. apply Htd. by apply list_elem_of_In.
Qed.

(** X15: a hash list can stand in for its tree in a containment check, on
    either side: when the digest is never empty and every file that
    carries a hash carries the digest of its contents, comparing with the
    hash list of a tree gives the answer of comparing with the tree. *)
Theorem contains_hashlist_write_hashlist (from to : config) :
  (all_files hash_consistent from = true ->
   contains_hashlist md5 (write_hashlist md5 empty_config from) to
   = contains_hashlist md5 from to) /\
  (all_files hash_consistent to = true ->
   contains_hashlist md5 from (write_hashlist md5 empty_config to)
   = contains_hashlist md5 from to).
Proof.
  split; [apply contains_hashlist_of_from|apply contains_hashlist_of_to].
Qed.

End HashlistMore.

Lemma sample_digest_nonempty (s : string) : sample_digest s <> EmptyString.
Proof. discriminate. Qed.

Lemma contains_hashlist_write_hashlist_witness :
  contains_hashlist sample_digest
    (write_hashlist sample_digest empty_config twin_files) twin_files
  = contains_hashlist sample_digest twin_files twin_files.
Proof.
  apply (proj1 (contains_hashlist_write_hashlist sample_digest
                  sample_digest_nonempty twin_files twin_files)).
  reflexivity.
Defined.

(** *** Legal names in a tree *)

Section NamesLegalMore.

Variable utf8_to_ucs4 : string -> list Z.
Variable ucs4_to_utf8 : list Z -> string.

Local Abbreviation legal := (addon_filename_legal utf8_to_ucs4 ucs4_to_utf8).
Local Abbreviation check_internal :=
  (check_names_legal_internal utf8_to_ucs4 ucs4_to_utf8).
Local Abbreviation paths := (illegal_paths utf8_to_ucs4 ucs4_to_utf8).
Local Abbreviation all_legal := (names_all_legal utf8_to_ucs4 ucs4_to_utf8).

Local Abbreviation slashed := with_slash.

Lemma check_names_legal_internal_eq (dir : config) (prefix : string)
    (badlist : option (list string)) :
  check_internal dir prefix badlist
  = match
      fold_until
        (fun path badlist =>
           if negb (legal (attr path "name"))
           then report_or_return (slashed prefix +:+ attr path "name") badlist
           else inl badlist)
        (child_range "file" dir) badlist
    with
    | inr r => r
    | inl badlist =>
      match
        fold_until
          (fun path badlist =>
             match
               if negb (legal (attr path "name"))
               then report_or_return
                      ((slashed prefix +:+ attr path "name") +:+ "/") badlist
               else inl badlist
             with
             | inr r => inr r
             | inl badlist =>
               let '(ok, badlist) :=
                 check_internal path (slashed prefix +:+ attr path "name")
                   badlist in
               if negb ok && negb (bool_decide (is_Some badlist))
               then inr (false, badlist)
               else inl badlist
             end)
          (child_range "dir" dir) badlist
      with
      | inr r => r
      | inl badlist => (badlist_verdict badlist, badlist)
      end
    end.
Proof.
  unfold with_slash.
  destruct dir as [vs cs]. cbn [check_names_legal_internal].
  rewrite for_each_child_until_fold.
  destruct (fold_until _ _ _) as [b|r]; [|done].
  by rewrite for_each_child_until_fold.
Qed.

Lemma names_all_legal_eq (dir : config) :
  all_legal dir
  = forallb (fun f => legal (attr f "name")) (child_range "file" dir)
    && forallb (fun d => legal (attr d "name") && all_legal d)
               (child_range "dir" dir).
Proof.
  destruct dir as [vs cs]. set (dir := Config vs cs).
  change (all_legal dir) with
    (forallb (fun f => legal (attr f "name")) (child_range "file" dir)
     && for_each_child "dir"
          (fun d ok => ok && legal (attr d "name") && all_legal d)
          (children dir) true).
  rewrite for_each_child_fold.
  rewrite (fold_left_pointwise _
             (fun st d => st && (legal (attr d "name") && all_legal d)))
    by (intros st d; by rewrite andb_assoc).
  by rewrite fold_left_andb.
Qed.

Lemma illegal_paths_eq (dir : config) (prefix : string) :
  paths dir prefix
  = ((fun f => slashed prefix +:+ attr f "name")
       <$> filter (fun f => negb (legal (attr f "name")) = true)
                  (child_range "file" dir))
    ++ concat
         ((fun d =>
             (if negb (legal (attr d "name"))
              then [(slashed prefix +:+ attr d "name") +:+ "/"] else [])
             ++ paths d (slashed prefix +:+ attr d "name"))
            <$> child_range "dir" dir).
Proof.
  destruct dir as [vs cs]. set (dir := Config vs cs).
  change (paths dir prefix) with
    (for_each_child "dir"
       (fun d out =>
          out ++ (if negb (legal (attr d "name"))
                  then [((if bool_decide (prefix = EmptyString) then prefix
                          else prefix +:+ "/") +:+ attr d "name") +:+ "/"]
                  else [])
              ++ paths d ((if bool_decide (prefix = EmptyString) then prefix
                           else prefix +:+ "/") +:+ attr d "name"))
       (children dir)
       ((fun f => (if bool_decide (prefix = EmptyString) then prefix
                   else prefix +:+ "/") +:+ attr f "name")
          <$> filter (fun f => negb (legal (attr f "name")) = true)
                     (child_range "file" dir))).
  rewrite for_each_child_fold.
  assert (Hp : (if bool_decide (prefix = EmptyString) then prefix
                else prefix +:+ "/") = slashed prefix)
    by (unfold with_slash; by case_bool_decide).
  rewrite Hp.
  generalize ((fun f => slashed prefix +:+ attr f "name")
                <$> filter (fun f => negb (legal (attr f "name")) = true)
                           (child_range "file" dir)) as out.
  generalize (child_range "dir" dir) as l.
  induction l as [|d l IH]; intros out; simpl.
  - by rewrite app_nil_r.
  - rewrite IH. by rewrite <- !app_assoc.
Qed.

(** With a list, the check appends the illegal paths to it. *)
Lemma check_names_legal_diagnostic (dir : config) :
  forall (prefix : string) (bl : list string),
    check_internal dir prefix (Some bl)
    = (bool_decide (bl ++ paths dir prefix = []),
       Some (bl ++ paths dir prefix)).
Proof.
  induction dir as [vs cs IH] using config_ind. intros prefix bl.
  set (dir := Config vs cs) in *.
  rewrite check_names_legal_internal_eq, illegal_paths_eq.
  assert (Hfiles : forall l bl,
             fold_until
               (fun path badlist =>
                  if negb (legal (attr path "name"))
                  then report_or_return
                         (slashed prefix +:+ attr path "name") badlist
                  else inl badlist)
               l (Some bl)
             = inl (Some (bl ++ ((fun f => slashed prefix +:+ attr f "name")
                                   <$> filter (fun f => negb (legal
                                                 (attr f "name")) = true) l)))).
  { clear. induction l as [|f l IHl]; intros bl; simpl.
    - by rewrite app_nil_r.
    - destruct (legal (attr f "name")) eqn:Hf; simpl.
      + rewrite filter_cons_False by (simpl; rewrite Hf; done). apply IHl.
      + rewrite filter_cons_True by (simpl; rewrite Hf; done).
        rewrite IHl. simpl. by rewrite <- app_assoc. }
  rewrite Hfiles.
  pose proof (child_range_Forall
                (fun d => forall prefix bl,
                     check_internal d prefix (Some bl)
                     = (bool_decide (bl ++ paths d prefix = []),
                        Some (bl ++ paths d prefix)))
                "dir" dir IH) as Hdirs.
  revert Hdirs. generalize (child_range "dir" dir) as l.
  generalize ((fun f => slashed prefix +:+ attr f "name")
                <$> filter (fun f => negb (legal (attr f "name")) = true)
                           (child_range "file" dir)) as out.
  intros out l. revert out.
  induction l as [|d l IHl]; intros out Hdirs.
  - simpl. by rewrite app_nil_r.
  - apply Forall_cons in Hdirs as [Hd Hdirs]. simpl.
    destruct (legal (attr d "name")) eqn:Hleg; simpl.
    + rewrite Hd. simpl. rewrite andb_false_r.
      specialize (IHl (out ++ paths d (slashed prefix +:+ attr d "name"))
                      Hdirs).
      rewrite <- !app_assoc in *. exact IHl.
    + rewrite Hd. simpl. rewrite andb_false_r.
      specialize (IHl (out ++ [(slashed prefix +:+ attr d "name") +:+ "/"]
                           ++ paths d (slashed prefix +:+ attr d "name"))
                      Hdirs).
      rewrite <- !app_assoc in *. simpl in *. exact IHl.
Qed.

(** Without a list, the check says whether every name is legal. *)
Lemma check_names_legal_fail_fast (dir : config) :
  forall prefix : string,
    check_internal dir prefix None = (all_legal dir, None).
Proof.
  induction dir as [vs cs IH] using config_ind. intros prefix.
  set (dir := Config vs cs) in *.
  rewrite check_names_legal_internal_eq, names_all_legal_eq.
  assert (Hfiles : forall l,
             fold_until
               (fun path badlist =>
                  if negb (legal (attr path "name"))
                  then report_or_return
                         (slashed prefix +:+ attr path "name") badlist
                  else inl badlist)
               l None
             = if forallb (fun f => legal (attr f "name")) l
               then inl None else inr (false, None)).
  { clear. induction l as [|f l IHl]; simpl; [done|].
    destruct (legal (attr f "name")); simpl; [apply IHl|done]. }
  rewrite Hfiles.
  destruct (forallb _ (child_range "file" dir)); [|done]. simpl.
  pose proof (child_range_Forall
                (fun d => forall prefix,
                     check_internal d prefix None = (all_legal d, None))
                "dir" dir IH) as Hdirs.
  revert Hdirs. generalize (child_range "dir" dir) as l.
  induction l as [|d l IHl]; intros Hdirs; [done|].
  apply Forall_cons in Hdirs as [Hd Hdirs]. simpl.
  destruct (legal (attr d "name")); simpl; [|done].
  rewrite Hd. destruct (all_legal d); simpl; [by apply IHl|done].
Qed.

Lemma illegal_paths_nil (dir : config) :
  forall prefix : string, paths dir prefix = [] <-> all_legal dir = true.
Proof.
  induction dir as [vs cs IH] using config_ind. intros prefix.
  set (dir := Config vs cs) in *.
  rewrite illegal_paths_eq, names_all_legal_eq.
  pose proof (child_range_Forall
                (fun d => forall prefix,
                     paths d prefix = [] <-> all_legal d = true)
                "dir" dir IH) as Hdirs.
  rewrite Forall_forall in Hdirs.
  rewrite andb_true_iff, !forallb_forall.
  split.
  - intros [Hf Hd]%app_eq_nil. split.
    + intros f Hin. apply fmap_nil_inv in Hf.
      rewrite filter_is_nil in Hf. apply list_elem_of_In in Hin.
      specialize (Hf f Hin). by destruct (legal (attr f "name")).
    + intros d Hin. apply list_elem_of_In in Hin.
      assert (Hnil : (if negb (legal (attr d "name"))
                      then [(slashed prefix +:+ attr d "name") +:+ "/"]
                      else [])
                     ++ paths d (slashed prefix +:+ attr d "name") = []).
      { destruct (_ ++ _) as [|p ps] eqn:Hp; [done|]. exfalso.
        assert (Hmem : p ∈ concat
                  ((fun d =>
                      (if negb (legal (attr d "name"))
                       then [(slashed prefix +:+ attr d "name") +:+ "/"]
                       else [])
                      ++ paths d (slashed prefix +:+ attr d "name"))
                     <$> child_range "dir" dir)).
        { apply list_elem_of_In, in_concat.
          exists (p :: ps). split; [|by left].
          apply list_elem_of_In, list_elem_of_fmap. exists d.
          by rewrite Hp. }
        rewrite Hd in Hmem. by apply elem_of_nil in Hmem. }
      apply app_eq_nil in Hnil as [Hname Hsub].
      apply andb_true_iff. split.
      * by destruct (legal (attr d "name")).
      * by apply (Hdirs d Hin) in Hsub.
  - intros [Hf Hd]. rewrite filter_none.
    2:{ intros f Hin. apply list_elem_of_In in Hin. by rewrite (Hf f Hin). }
    simpl. apply concat_nil_Forall, Forall_forall.
    intros ps (d & -> & Hin)%list_elem_of_fmap. cbv beta.
    pose proof (Hd d (proj1 (list_elem_of_In _ _) Hin)) as Hd'.
    apply andb_true_iff in Hd' as [Hname Hsub].
    rewrite Hname. simpl. by apply (Hdirs d Hin).
Qed.

(** X16: both modes of [check_names_legal] give the same verdict: without
    a list to report to, and with an empty one, the result is true exactly
    when every file and directory name of the tree, at any depth, is a
    legal file name. *)
Theorem check_names_legal_verdict (dir : config) :
  (check_names_legal utf8_to_ucs4 ucs4_to_utf8 dir None).1
  = names_all_legal utf8_to_ucs4 ucs4_to_utf8 dir /\
  (check_names_legal utf8_to_ucs4 ucs4_to_utf8 dir (Some [])).1
  = names_all_legal utf8_to_ucs4 ucs4_to_utf8 dir.
Proof.
  unfold check_names_legal. split.
  - by rewrite check_names_legal_fail_fast.
  - rewrite check_names_legal_diagnostic. simpl.
    destruct (all_legal dir) eqn:Hall.
    + apply bool_decide_eq_true. by apply illegal_paths_nil.
    + apply bool_decide_eq_false. rewrite illegal_paths_nil. congruence.
Qed.

(** X17: with a list to report to, [check_names_legal] only appends to it:
    the list comes back as the old entries followed by the illegal paths
    of the tree, which do not depend on the old entries; and the result is
    true only if the list comes back empty, so it is false whenever the
    list had entries, even for a tree of legal names. *)
Theorem check_names_legal_appends (dir : config) (bl : list string) :
  check_names_legal utf8_to_ucs4 ucs4_to_utf8 dir (Some bl)
  = (bool_decide
       (bl = [] /\ names_all_legal utf8_to_ucs4 ucs4_to_utf8 dir = true),
     Some (bl ++ illegal_paths utf8_to_ucs4 ucs4_to_utf8 dir "")).
Proof.
  unfold check_names_legal. rewrite check_names_legal_diagnostic.
  f_equal. apply bool_decide_ext.
  rewrite <- (illegal_paths_nil dir ""). split.
  - by intros [-> ->]%app_eq_nil.
  - by intros [-> ->].
Qed.

End NamesLegalMore.

(** *** Case-insensitive duplicates: the verdict *)

Lemma collision_report_nil (prefix : string) (earlier : list string)
    (name : string) :
  collision_report prefix earlier name = []
  <-> to_lower_copy name ∉ to_lower_copy <$> earlier.
Proof.
  unfold collision_report.
  destruct (filter _ earlier) as [|o [|o' rest]] eqn:Hf.
  - split; [|done]. intros _ (n & Hn & Hin)%list_elem_of_fmap.
    rewrite filter_is_nil in Hf. by apply (Hf n Hin).
  - split; [done|]. intros Hnot. exfalso. apply Hnot.
    assert (Ho : o ∈ filter (fun n => to_lower_copy n = to_lower_copy name)
                            earlier) by (rewrite Hf; left).
    apply list_elem_of_filter in Ho as [Ho Hin].
    apply list_elem_of_fmap. by exists o.
  - split; [done|]. intros Hnot. exfalso. apply Hnot.
    assert (Ho : o ∈ filter (fun n => to_lower_copy n = to_lower_copy name)
                            earlier) by (rewrite Hf; left).
    apply list_elem_of_filter in Ho as [Ho Hin].
    apply list_elem_of_fmap. by exists o.
Qed.

Lemma level_report_app (prefix : string) (names1 names2 : list string) :
  forall earlier,
    level_report prefix earlier (names1 ++ names2)
    = level_report prefix earlier names1
      ++ level_report prefix (earlier ++ names1) names2.
Proof.
  induction names1 as [|n names1 IH]; intros earlier; simpl.
  - by rewrite app_nil_r.
  - rewrite IH, <- !app_assoc. done.
Qed.

Lemma level_report_nil (prefix : string) (names : list string) :
  forall earlier,
    NoDup (to_lower_copy <$> earlier) ->
    level_report prefix earlier names = []
    <-> NoDup (to_lower_copy <$> (earlier ++ names)).
Proof.
  induction names as [|n names IH]; intros earlier Hearlier; simpl.
  - by rewrite app_nil_r.
  - replace (earlier ++ n :: names) with ((earlier ++ [n]) ++ names)
      by (by rewrite <- app_assoc).
    split.
    + intros [Hc Hl]%app_eq_nil. apply collision_report_nil in Hc.
      apply IH; [|done]. rewrite fmap_app. apply NoDup_app.
      split; [done|]. split; [|apply NoDup_singleton].
      intros x Hx [->|[]%elem_of_nil]%elem_of_cons. done.
    + intros Hnd.
      assert (Hpre : NoDup (to_lower_copy <$> (earlier ++ [n]))).
      { rewrite fmap_app in Hnd. by apply NoDup_app in Hnd as [? _]. }
      rewrite (proj2 (IH _ Hpre) Hnd), app_nil_r.
      apply collision_report_nil.
      rewrite fmap_app in Hpre. apply NoDup_app in Hpre as (_ & Hdis & _).
      intros Hin. apply (Hdis _ Hin). left.
Qed.

Lemma lowercase_names_distinct_eq (dir : config) :
  lowercase_names_distinct dir
  = bool_decide
      (NoDup ((fun c => to_lower_copy (attr c "name"))
                <$> (child_range "file" dir ++ child_range "dir" dir)))
    && forallb lowercase_names_distinct (child_range "dir" dir).
Proof.
  destruct dir as [vs cs]. set (dir := Config vs cs).
  change (lowercase_names_distinct dir) with
    (bool_decide
       (NoDup ((fun c => to_lower_copy (attr c "name"))
                 <$> (child_range "file" dir ++ child_range "dir" dir)))
     && for_each_child "dir" (fun d ok => ok && lowercase_names_distinct d)
          (children dir) true).
  by rewrite for_each_child_fold, fold_left_andb.
Qed.

(** The report of the subdirectories, after the names [earlier], on top of
    what is reported already. *)
Lemma dirs_report_tail (prefix : string) (l : list config) :
  forall (earlier out : list string),
    exists tail,
      snd (fold_left
             (fun (st : list string * list string) path =>
                let '(earlier, out) := st in
                let name := attr path "name" in
                (earlier ++ [name],
                 out ++ collision_report prefix earlier name
                     ++ duplicate_report path (prefix +:+ name +:+ "/")))
             l (earlier, out))
      = out ++ tail
      /\ (tail = [] <->
          level_report prefix earlier ((fun c => attr c "name") <$> l) = []
          /\ Forall (fun d => duplicate_report d
                                (prefix +:+ attr d "name" +:+ "/") = []) l).
Proof.
  induction l as [|d l IH]; intros earlier out.
  - exists []. simpl. rewrite app_nil_r. by split.
  - destruct (IH (earlier ++ [attr d "name"])
                 (out ++ collision_report prefix earlier (attr d "name")
                      ++ duplicate_report d (prefix +:+ attr d "name" +:+ "/")))
      as (tail & Heq & Htail).
    exists (collision_report prefix earlier (attr d "name")
            ++ duplicate_report d (prefix +:+ attr d "name" +:+ "/") ++ tail).
    split.
    { simpl in *. rewrite Heq. by rewrite <- !app_assoc. }
    rewrite fmap_cons, Forall_cons. cbn [level_report]. split.
    + intros [Hc [Hr Ht]%app_eq_nil]%app_eq_nil.
      apply Htail in Ht as [Hl Hall]. by rewrite Hc, Hl.
    + intros [[Hc Hl]%app_eq_nil [Hr Hall]].
      rewrite Hc, Hr, (proj2 Htail); done.
Qed.

Lemma duplicate_report_nil (dir : config) :
  forall prefix : string,
    duplicate_report dir prefix = [] <-> lowercase_names_distinct dir = true.
Proof.
  induction dir as [vs cs IH] using config_ind. intros prefix.
  set (dir := Config vs cs) in *.
  rewrite duplicate_report_eq, lowercase_names_distinct_eq. cbv zeta.
  destruct (dirs_report_tail prefix (child_range "dir" dir)
              ((fun c => attr c "name") <$> child_range "file" dir)
              (level_report prefix []
                 ((fun c => attr c "name") <$> child_range "file" dir)))
    as (tail & Heq & Htail).
  cbv zeta in Heq. rewrite Heq. clear Heq.
  pose proof (child_range_Forall
                (fun d => forall prefix,
                     duplicate_report d prefix = []
                     <-> lowercase_names_distinct d = true)
                "dir" dir IH) as Hdirs.
  rewrite Forall_forall in Hdirs.
  assert (Hsub : Forall (fun d => duplicate_report d
                                    (prefix +:+ attr d "name" +:+ "/") = [])
                        (child_range "dir" dir)
                 <-> forallb lowercase_names_distinct (child_range "dir" dir)
                     = true).
  { rewrite Forall_forall, forallb_forall. split.
    - intros H d Hd. apply list_elem_of_In in Hd.
      apply (proj1 (Hdirs d Hd (prefix +:+ attr d "name" +:+ "/"))).
      by apply H.
    - intros H d Hd.
      apply (proj2 (Hdirs d Hd (prefix +:+ attr d "name" +:+ "/"))).
      apply H. by apply list_elem_of_In. }
  assert (Hnames :
            level_report prefix []
              ((fun c => attr c "name") <$> child_range "file" dir) = []
            /\ level_report prefix
                 ((fun c => attr c "name") <$> child_range "file" dir)
                 ((fun c => attr c "name") <$> child_range "dir" dir) = []
            <-> NoDup ((fun c => to_lower_copy (attr c "name"))
                         <$> (child_range "file" dir
                              ++ child_range "dir" dir))).
  { rewrite <- app_nil.
    pose proof (level_report_app prefix
                  ((fun c => attr c "name") <$> child_range "file" dir)
                  ((fun c => attr c "name") <$> child_range "dir" dir) [])
      as Happ.
    simpl in Happ. rewrite <- Happ.
    rewrite level_report_nil by constructor.
    rewrite app_nil_l, <- fmap_app, <- list_fmap_compose. done. }
  rewrite andb_true_iff, bool_decide_eq_true, <- Hnames, <- Hsub.
  rewrite app_nil, Htail. tauto.
Qed.

Lemma level_report_two (prefix : string) (files dirs : list config) :
  level_report prefix [] ((fun c => attr c "name") <$> files) = []
  /\ level_report prefix ((fun c => attr c "name") <$> files)
       ((fun c => attr c "name") <$> dirs) = []
  <-> NoDup ((fun c => to_lower_copy (attr c "name")) <$> (files ++ dirs)).
Proof.
  rewrite <- app_nil.
  pose proof (level_report_app prefix
                ((fun c => attr c "name") <$> files)
                ((fun c => attr c "name") <$> dirs) []) as Happ.
  simpl in Happ. rewrite <- Happ.
  rewrite level_report_nil by constructor.
  by rewrite app_nil_l, <- fmap_app, <- list_fmap_compose.
Qed.

Lemma record_name_fail_fast (prefix name : string) (earlier : list string)
    (filenames : gmap string (bool * string)) :
  seen_as prefix earlier filenames ->
  (collision_report prefix earlier name = [] /\
   exists filenames',
     record_name prefix name filenames None = Some (filenames', None) /\
     seen_as prefix (earlier ++ [name]) filenames')
  \/ (collision_report prefix earlier name <> [] /\
      record_name prefix name filenames None = None).
Proof.
  intros Hseen. unfold record_name, collision_report. cbv zeta.
  pose proof (Hseen (to_lower_copy name)) as Hname. rewrite Hname.
  destruct (filter (fun n => to_lower_copy n = to_lower_copy name) earlier)
    as [|original [|second rest]] eqn:Hf.
  - left. split; [done|]. eexists. split; [done|].
    intros key. rewrite filter_app.
    destruct (decide (key = to_lower_copy name)) as [->|Hkey].
    + rewrite lookup_insert_eq, Hf, filter_cons_True by done.
      by rewrite filter_nil.
    + rewrite lookup_insert_ne by done.
      rewrite filter_cons_False by congruence.
      rewrite filter_nil, app_nil_r. apply Hseen.
  - right. by split.
  - right. by split.
Qed.

Lemma files_loop_fail_fast (prefix : string) (l : list config) :
  forall (earlier : list string) (filenames : gmap string (bool * string)),
    seen_as prefix earlier filenames ->
    match
      fold_until
        (fun path '(filenames, badlist) =>
           match record_name prefix (attr path "name") filenames badlist with
           | Some st => inl st
           | None => inr (false, badlist)
           end)
        l (filenames, None)
    with
    | inl (filenames', badlist) =>
      badlist = None /\
      seen_as prefix (earlier ++ ((fun c => attr c "name") <$> l)) filenames'
      /\ level_report prefix earlier ((fun c => attr c "name") <$> l) = []
    | inr r =>
      r = (false, None) /\
      level_report prefix earlier ((fun c => attr c "name") <$> l) <> []
    end.
Proof.
  induction l as [|c l IH]; intros earlier filenames Hseen.
  - simpl. by rewrite app_nil_r.
  - rewrite fmap_cons. cbn [fold_until level_report].
    destruct (record_name_fail_fast prefix (attr c "name") earlier
                filenames Hseen) as [(Hc & fn1 & -> & Hseen1)|[Hc ->]].
    + specialize (IH _ _ Hseen1). rewrite Hc, app_nil_l.
      destruct (fold_until _ l (fn1, None)) as [[fn2 b]|r].
      * destruct IH as (-> & Hseen2 & Hl). rewrite <- app_assoc in Hseen2.
        done.
      * done.
    + split; [done|]. intros [? _]%app_nil. done.
Qed.

Lemma dirs_loop_fail_fast (prefix : string) (l : list config) :
  Forall (fun d => forall prefix,
              check_case_insensitive_duplicates_internal d prefix None
              = (lowercase_names_distinct d, None)) l ->
  forall (earlier : list string) (filenames : gmap string (bool * string)),
    seen_as prefix earlier filenames ->
    exists verdict,
      match
        fold_until
          (fun path '(filenames, badlist) =>
             let filename := attr path "name" in
             match record_name prefix filename filenames badlist with
             | None => inr (false, badlist)
             | Some (filenames, badlist) =>
               let '(ok, badlist) :=
                 check_case_insensitive_duplicates_internal
                   path (prefix +:+ filename +:+ "/") badlist in
               if negb ok && negb (bool_decide (is_Some badlist))
               then inr (false, badlist)
               else inl (filenames, badlist)
             end)
          l (filenames, None)
      with
      | inr r => r
      | inl (_, badlist) => (badlist_verdict badlist, badlist)
      end = (verdict, None)
      /\ (verdict = true <->
          level_report prefix earlier ((fun c => attr c "name") <$> l) = []
          /\ forallb lowercase_names_distinct l = true).
Proof.
  induction 1 as [|d l Hd _ IH]; intros earlier filenames Hseen.
  - exists true. by split.
  - rewrite fmap_cons. cbn [fold_until level_report forallb]. cbv zeta.
    destruct (record_name_fail_fast prefix (attr d "name") earlier
                filenames Hseen) as [(Hc & fn1 & -> & Hseen1)|[Hc ->]].
    + rewrite Hd, Hc, app_nil_l.
      destruct (lowercase_names_distinct d) eqn:Hdist; simpl.
      * destruct (IH _ _ Hseen1) as (v & Hv & Hiff). exists v. by split.
      * exists false. split; [done|]. split; [done|]. by intros [_ ?].
    + exists false. split; [done|]. split; [done|].
      intros [[? _]%app_nil _]. done.
Qed.

(** Without a list, the check says whether the lower-cased names of every
    directory are distinct. *)
Lemma check_duplicates_fail_fast (dir : config) :
  forall prefix : string,
    check_case_insensitive_duplicates_internal dir prefix None
    = (lowercase_names_distinct dir, None).
Proof.
  induction dir as [vs cs IH] using config_ind. intros prefix.
  set (dir := Config vs cs) in *.
  pose proof (child_range_Forall
                (fun d => forall prefix,
                     check_case_insensitive_duplicates_internal d prefix None
                     = (lowercase_names_distinct d, None))
                "dir" dir IH) as Hdirs.
  pose proof (files_loop_fail_fast prefix (child_range "file" dir) [] ∅
                (seen_as_empty prefix)) as Hfiles.
  pose proof (level_report_two prefix (child_range "file" dir)
                (child_range "dir" dir)) as Hnames.
  rewrite lowercase_names_distinct_eq.
  destruct dir as [vs' cs'] eqn:Hdir.
  cbn [check_case_insensitive_duplicates_internal].
  rewrite <- Hdir in *. clear Hdir vs' cs'.
  rewrite for_each_child_until_fold.
  destruct (fold_until _ (child_range "file" dir) (∅, None))
    as [[fn1 b]|r].
  - destruct Hfiles as (-> & Hseen1 & Hl1). simpl in Hseen1.
    rewrite for_each_child_until_fold.
    destruct (dirs_loop_fail_fast prefix _ Hdirs _ fn1 Hseen1)
      as (v & Hv & Hiff).
    cbv zeta in Hv. rewrite Hv. f_equal.
    destruct v.
    + symmetry. apply andb_true_iff. destruct (proj1 Hiff eq_refl).
      split; [|done]. apply bool_decide_eq_true.
      by apply (proj1 Hnames).
    + symmetry. apply not_true_iff_false. intros [Hnd Hsub]%andb_true_iff.
      apply bool_decide_eq_true in Hnd.
      apply (proj2 Hnames) in Hnd as [_ Hl2].
      by pose proof (proj2 Hiff (conj Hl2 Hsub)).
  - destruct Hfiles as [-> Hl1]. f_equal. symmetry.
    apply not_true_iff_false. intros [Hnd _]%andb_true_iff.
    apply bool_decide_eq_true in Hnd.
    apply (proj2 Hnames) in Hnd as [Hl _]. done.
Qed.

(** X18: both modes of [check_case_insensitive_duplicates] give the same
    verdict: without a list to report to, and with an empty one, the
    result is true exactly when in every directory of the tree the
    lower-cased names of its files and subdirectories are distinct. *)
Theorem check_case_insensitive_duplicates_verdict (dir : config) :
  (check_case_insensitive_duplicates dir None).1
  = lowercase_names_distinct dir /\
  (check_case_insensitive_duplicates dir (Some [])).1
  = lowercase_names_distinct dir.
Proof.
  unfold check_case_insensitive_duplicates. split.
  - by rewrite check_duplicates_fail_fast.
  - rewrite check_duplicates_diagnostic. simpl.
    destruct (lowercase_names_distinct dir) eqn:Hd.
    + apply bool_decide_eq_true. by apply duplicate_report_nil.
    + apply bool_decide_eq_false. rewrite duplicate_report_nil. congruence.
Qed.

(** *** Entries of a difference, and containment of a grown tree *)

Section EntriesMore.

Variable md5 : string -> string.

Lemma diff_file_shape (with_content : bool) (f : config) :
  entry_shape with_content (diff_file md5 with_content f) = true.
Proof. by destruct with_content. Qed.

(** X19: every file entry of a difference, at any depth, has a name, and
    has contents and a hash exactly when [with_content] is set: a pack
    whose file entries are of that shape still is after [write_difference]
    wrote into it. *)
Theorem write_difference_entry_shape (to : config) :
  forall (pack from : config) (with_content : bool),
    all_files (entry_shape with_content) pack = true ->
    all_files (entry_shape with_content)
      (write_difference md5 pack from to with_content).1 = true.
Proof.
  induction to as [vs cs IH] using config_ind. set (to := Config vs cs) in *.
  intros pack from with_content Hpack.
  rewrite all_files_eq in Hpack |- *.
  apply andb_true_iff in Hpack as [Hpf Hpd].
  rewrite write_difference_files, write_difference_dirs, !forallb_app.
  rewrite Hpf, Hpd. simpl. apply andb_true_iff. split.
  - apply forallb_forall. intros e He. apply list_elem_of_In in He.
    apply list_elem_of_fmap in He as (f & -> & _). apply diff_file_shape.
  - apply forallb_forall. intros e He. apply list_elem_of_In in He.
    apply list_elem_of_fmap in He as (d & -> & Hd).
    apply list_elem_of_filter in Hd as [_ Hd].
    pose proof (child_range_Forall
                  (fun d => forall pack from with_content,
                       all_files (entry_shape with_content) pack = true ->
                       all_files (entry_shape with_content)
                         (write_difference md5 pack from d with_content).1
                       = true)
                  "dir" to IH) as Hdirs.
    rewrite Forall_forall in Hdirs. by apply Hdirs.
Qed.

(** X20: containment of a tree that gained a child: [from] contains [to]
    with a file added exactly when it contains [to] and has a file of the
    same name and hash; with a subdirectory added, exactly when it
    contains [to] and its subdirectory of that name (or an empty one)
    contains the new subdirectory; a child under any other tag changes
    nothing. *)
Theorem contains_hashlist_grown (from to : config) (tag : string)
    (c : config) :
  contains_hashlist md5 from (add_child to tag c)
  = contains_hashlist md5 from to
    && (if bool_decide (tag = "file")
        then existsb (comp_file_hash md5 c) (child_range "file" from)
        else if bool_decide (tag = "dir")
             then contains_hashlist md5 (origin_dir from c) c
             else true).
Proof.
  rewrite (contains_hashlist_eq md5 from (add_child to tag c)).
  rewrite (contains_hashlist_eq md5 from to).
  assert (Hrange : forall t,
             child_range t (add_child to tag c)
             = child_range t to
               ++ (if bool_decide (tag = t) then [c] else [])).
  { intros t. unfold add_child.
    rewrite (child_range_cons_app t _ (values to)).
    destruct to as [tv tc]. unfold child_range. simpl.
    by case_bool_decide. }
  rewrite !Hrange, !forallb_app.
  destruct (bool_decide (tag = "file")) eqn:Hfile.
  - apply bool_decide_eq_true in Hfile. subst tag.
    rewrite (bool_decide_eq_false_2 ("file" = "dir")) by done.
    simpl. rewrite !andb_true_r.
    destruct (forallb _ (child_range "file" to)); simpl; [|done].
    apply andb_comm.
  - destruct (bool_decide (tag = "dir")) eqn:Hdir; simpl;
      by rewrite ?andb_true_r, ?andb_assoc.
Qed.

End EntriesMore.

Lemma write_difference_entry_shape_witness :
  all_files (entry_shape false)
    (write_difference sample_digest empty_config twin_files twin_dirs false).1
  = true.
Proof.
  apply (write_difference_entry_shape sample_digest twin_dirs).
  reflexivity.
Defined.

End TreeMore.
